(** * mcp-file-edit: line-editing tools over a text file

    A shallow embedding of the file-editing tools of the FileEditor server
    ([src/index.ts], [src/utils.ts]) and the properties of the batch edit
    coordinator [multireplace_lines_in_file], of [replace_in_file],
    [insert_into_file] and of the glob matcher of [search_directory]. *)

From Stdlib Require Import Ascii String.
From Stdlib Require Import ZArith NArith List Bool Lia Sorted Permutation.
From Stdlib Require Import DecimalString.
Import ListNotations.
Open Scope Z_scope.

(** ** JavaScript values used by the tools *)

Module JS.

(** A JavaScript string is a sequence of UTF-16 code units. *)
Definition char16 := N.
Definition jsstring := list char16.

(** [str] reads an ASCII literal as a JavaScript string. *)
Fixpoint str (s : string) : jsstring :=
  match s with
  | EmptyString => []
  | String c s' => N_of_ascii c :: str s'
  end.

Definition LF : char16 := 10%N.
Definition SPACE : char16 := 32%N.

(** [a === b] on strings. *)
Definition string_eq_dec (a b : jsstring) : {a = b} + {a <> b} :=
  list_eq_dec N.eq_dec a b.

Definition strict_eqb (a b : jsstring) : bool :=
  if string_eq_dec a b then true else false.

(** The characters matched by [\s] and removed by [String.prototype.trim]:
    WhiteSpace and LineTerminator of ECMAScript. *)
Definition is_space (c : char16) : bool :=
  ((9 <=? c) && (c <=? 13) || (c =? 32) || (c =? 160) || (c =? 5760)
   || (8192 <=? c) && (c <=? 8202) || (c =? 8232) || (c =? 8233)
   || (c =? 8239) || (c =? 8287) || (c =? 12288) || (c =? 65279))%N.

(** LineTerminator: the characters [.] does not match. *)
Definition is_line_terminator (c : char16) : bool :=
  ((c =? 10) || (c =? 13) || (c =? 8232) || (c =? 8233))%N.

Fixpoint trimStart (s : jsstring) : jsstring :=
  match s with
  | [] => []
  | c :: s' => if is_space c then trimStart s' else s
  end.

Definition trimEnd (s : jsstring) : jsstring := rev (trimStart (rev s)).

(** [s.trim()] *)
Definition trim (s : jsstring) : jsstring := trimEnd (trimStart s).

(** [s.replace(/\s+/g, ' ')]: every maximal run of white space becomes one
    space. [in_run] tells that the previous character was white space. *)
Fixpoint replace_spaces (in_run : bool) (s : jsstring) : jsstring :=
  match s with
  | [] => []
  | c :: s' =>
      if is_space c
      then (if in_run then replace_spaces true s'
            else SPACE :: replace_spaces true s')
      else c :: replace_spaces false s'
  end.

(** [s.split('\n')]: one more piece than there are separators. *)
Fixpoint split_lines (s : jsstring) : list jsstring :=
  match s with
  | [] => [[]]
  | c :: s' =>
      if (c =? LF)%N then [] :: split_lines s'
      else match split_lines s' with
           | [] => [[c]]
           | l :: ls => (c :: l) :: ls
           end
  end.

(** [lines.join('\n')] *)
Fixpoint join_lines (lines : list jsstring) : jsstring :=
  match lines with
  | [] => []
  | [l] => l
  | l :: rest => l ++ LF :: join_lines rest
  end.

(** [arr[i]]: [undefined] ([None]) outside the array. *)
Definition index {A} (arr : list A) (i : Z) : option A :=
  if i <? 0 then None else nth_error arr (Z.to_nat i).

(** Relative index of [Array.prototype.slice] and [splice]: a negative
    index counts from the end, and the result is clamped to [0, len]. *)
Definition relative_index (len k : Z) : Z :=
  if k <? 0 then Z.max (len + k) 0 else Z.min k len.

(** [arr.slice(s, e)] *)
Definition slice {A} (arr : list A) (s e : Z) : list A :=
  let len := Z.of_nat (length arr) in
  let k := relative_index len s in
  let final := relative_index len e in
  firstn (Z.to_nat (final - k)) (skipn (Z.to_nat k) arr).

(** [arr.slice(s)] *)
Definition slice_from {A} (arr : list A) (s : Z) : list A :=
  slice arr s (Z.of_nat (length arr)).

(** [arr.splice(s, 0, x)]: the array after the insertion. *)
Definition splice_insert {A} (arr : list A) (s : Z) (x : A) : list A :=
  let k := Z.to_nat (relative_index (Z.of_nat (length arr)) s) in
  firstn k arr ++ x :: skipn k arr.

(** [arr.sort(cmp)]. The sort of ECMAScript is stable, and for a consistent
    comparator its result is the one stable sorted arrangement of the
    array; insertion from the right computes that arrangement. *)
Fixpoint sort_insert {A} (cmp : A -> A -> Z) (x : A) (l : list A) : list A :=
  match l with
  | [] => [x]
  | y :: l' => if cmp x y <=? 0 then x :: l else y :: sort_insert cmp x l'
  end.

Definition sort {A} (cmp : A -> A -> Z) (arr : list A) : list A :=
  fold_right (sort_insert cmp) [] arr.

(** [a] may stand before [b] in an array sorted with [cmp]. *)
Definition cmp_le {A} (cmp : A -> A -> Z) (a b : A) : Prop := cmp a b <= 0.

End JS.

Import JS.

(** ** The edited file *)

(** The tools work on one file whose path passed [validateAbsolutePath] and
    [validateFileExists], and which holds text: its bytes are the UTF-8
    encoding of a string, so that reading it as ['utf-8'] and writing the
    string back gives the same bytes. Its state is the text it holds and
    the texts written to it so far, oldest first. *)
Record File := mkFile {
  content : jsstring;
  write_log : list jsstring
}.

Definition readFileSync (f : File) : jsstring := content f.

Definition writeFileSync (f : File) (data : jsstring) : File :=
  {| content := data; write_log := write_log f ++ [data] |}.

(** The messages of the [UserError]s the tools throw, one constructor per
    message template, with the values the template interpolates.
    [OtherError] stands for an exception that is not a [UserError] and is
    reported through its own message. *)
Inductive UserError : Type :=
| LineDoesNotExist (lineNumber fileLines : Z)
| LineContentVerificationFailed (lineNumber : Z)
    (normalizedExpected normalizedActual : jsstring)
| NoMatchesFound (regex_source : jsstring)
| MultipleMatchesFound (count : nat) (regex_source : jsstring)
| OverlappingRanges (line_start : Z)
| LineNotInOriginal (line fileLines : Z)
| LineStartAfterLineEnd
| TargetRangeGone (line_start : Z)
| OtherError.

Inductive Result (A : Type) : Type :=
| Ok (a : A)
| Err (e : UserError).
Arguments Ok {A} a.
Arguments Err {A} e.

(** ** utils.ts *)

Definition normalizeContent (content : jsstring) : jsstring :=
  replace_spaces false (trim content).

Definition verifyLineContent (f : File) (lineNumber : Z)
    (expectedContent : jsstring) : Result jsstring :=
  let lines := split_lines (readFileSync f) in
  if (lineNumber <? 1) || (lineNumber >? Z.of_nat (length lines))
  then Err (LineDoesNotExist lineNumber (Z.of_nat (length lines)))
  else match index lines (lineNumber - 1) with
       | None => Err OtherError
       | Some actualContent =>
           let normalizedActual := replace_spaces false (trim actualContent) in
           let normalizedExpected :=
             replace_spaces false (trim expectedContent) in
           if strict_eqb normalizedActual normalizedExpected
           then Ok actualContent
           else Err (LineContentVerificationFailed lineNumber
                       normalizedExpected normalizedActual)
       end.

(** ** Tool 4: insert_into_file *)

Inductive Where : Type := before | after.

Inductive InsertPosition : Type :=
| EndOfFile
| AtLine (position : Where) (line_number : Z).

Definition insert_into_file (f : File) (line_number : Z)
    (line_contents : jsstring) (where_ : Where) (contents : jsstring)
  : File * Result InsertPosition :=
  let lines := split_lines (readFileSync f) in
  if line_number =? 0 then
    let lines := lines ++ [contents] in
    (writeFileSync f (join_lines lines), Ok EndOfFile)
  else
    match verifyLineContent f line_number line_contents with
    | Err e => (f, Err e)
    | Ok _ =>
        let insertIndex :=
          match where_ with after => line_number | before => line_number - 1 end in
        let lines := splice_insert lines insertIndex contents in
        (writeFileSync f (join_lines lines), Ok (AtLine where_ line_number))
    end.

(** ** Tool 2: replace_in_file *)

(** The regular-expression engine of the host: [compile] is
    [new RegExp(source, 'g')] ([None] when the source is not a pattern),
    [match_all] the array of [content.match(regex)] ([[]] for [null]) and
    [replace_all] is [content.replace(regex, target)]. *)
Record RegExpEngine : Type := {
  regexp : Type;
  compile : jsstring -> option regexp;
  match_all : regexp -> jsstring -> list jsstring;
  replace_all : regexp -> jsstring -> jsstring -> jsstring
}.

(** The message of a successful replacement: the number of occurrences. *)
Inductive Replaced : Type :=
| SuccessfullyReplaced (occurrences : nat).

(** [multiple] is optional: [None] is [undefined]. *)
Definition truthy (b : option bool) : bool :=
  match b with Some true => true | _ => false end.

Definition replace_in_file (E : RegExpEngine) (f : File)
    (regex_source target : jsstring) (multiple : option bool)
  : File * Result Replaced :=
  let content := readFileSync f in
  match compile E regex_source with
  | None => (f, Err OtherError)
  | Some regex =>
      let matches := match_all E regex content in
      match matches with
      | [] => (f, Err (NoMatchesFound regex_source))
      | _ :: _ =>
          if negb (truthy multiple) && (1 <? length matches)%nat
          then (f, Err (MultipleMatchesFound (length matches) regex_source))
          else
            let newContent := replace_all E regex content target in
            (writeFileSync f newContent,
             Ok (SuccessfullyReplaced (length matches)))
      end
  end.

(** ** Tool 6: multireplace_lines_in_file *)

Record Edit := mkEdit {
  line_start : Z;
  line_end : Z;
  line_start_contents : jsstring;
  contents : jsstring
}.

(** An element of [results]. *)
Record EditResult := mkResult {
  r_index : Z;
  success : bool;
  error : option UserError;
  r_line_start : Z;
  r_line_end : Z;
  r_shift : option Z
}.

(** An element of [lineShifts]. *)
Record LineShift := mkShift {
  ls_start : Z;
  ls_end : Z;
  ls_shift : Z
}.

(** The comparator handed to [edits.sort]. *)
Definition compare_edits (a b : Edit) : Z :=
  if line_start a <? line_start b then -1
  else if line_start a >? line_start b then 1
  else if line_end a <? line_end b then -1
  else if line_end a >? line_end b then 1
  else 0.

(** The overlap loop: [Some n] when it throws for an edit starting at [n]. *)
Fixpoint check_overlaps (previousEnd : Z) (edits : list Edit) : option Z :=
  match edits with
  | [] => None
  | edit :: rest =>
      if line_start edit <=? previousEnd then Some (line_start edit)
      else check_overlaps (line_end edit) rest
  end.

(** The two variables the edit loop updates. *)
Record Working := mkWorking {
  workingLines : list jsstring;
  lineShifts : list LineShift
}.

(** The loop over [lineShifts]: the sum of the shifts of the recorded edits
    that start at or before [edit]. *)
Definition adjustment (shifts : list LineShift) (edit : Edit) : Z :=
  fold_left
    (fun acc shift =>
       if ls_start shift <=? line_start edit then acc + ls_shift shift else acc)
    shifts 0.

Definition currentStartIndex (w : Working) (edit : Edit) : Z :=
  line_start edit - 1 + adjustment (lineShifts w) edit.

(** [currentEndIndex] before it is clamped. *)
Definition translatedEndIndex (w : Working) (edit : Edit) : Z :=
  line_end edit - 1 + adjustment (lineShifts w) edit.

(** [currentEndIndex] after the clamp to the end of the working copy. *)
Definition currentEndIndex (w : Working) (edit : Edit) : Z :=
  if translatedEndIndex w edit >=? Z.of_nat (length (workingLines w))
  then Z.of_nat (length (workingLines w)) - 1
  else translatedEndIndex w edit.

Definition edit_shift (edit : Edit) : Z :=
  let originalRangeLength := line_end edit - line_start edit + 1 in
  let newContentLength := Z.of_nat (length (split_lines (contents edit))) in
  newContentLength - originalRangeLength.

(** The body of the [try] of one iteration: the error it throws, or the
    working state it leaves and the shift of the edit. *)
Definition try_edit (originalLines : list jsstring) (w : Working)
    (edit : Edit) : Result (Working * Z) :=
  let len := Z.of_nat (length originalLines) in
  if line_start edit >? len
  then Err (LineNotInOriginal (line_start edit) len)
  else if line_end edit >? len
  then Err (LineNotInOriginal (line_end edit) len)
  else if line_start edit >? line_end edit
  then Err LineStartAfterLineEnd
  else
    match index originalLines (line_start edit - 1) with
    | None => Err OtherError
    | Some originalLineContent =>
        if negb (strict_eqb originalLineContent (line_start_contents edit))
        then Err (LineContentVerificationFailed (line_start edit)
                    (normalizeContent (line_start_contents edit))
                    (normalizeContent originalLineContent))
        else if currentStartIndex w edit
                >=? Z.of_nat (length (workingLines w))
        then Err (TargetRangeGone (line_start edit))
        else
          let shift := edit_shift edit in
          let newLines :=
            slice (workingLines w) 0 (currentStartIndex w edit)
            ++ split_lines (contents edit)
            ++ slice_from (workingLines w) (currentEndIndex w edit + 1) in
          Ok ({| workingLines := newLines;
                 lineShifts := lineShifts w
                   ++ [ {| ls_start := line_start edit;
                           ls_end := line_end edit;
                           ls_shift := shift |} ] |},
              shift)
    end.

(** One iteration of the edit loop: the [result] it pushes. *)
Definition process_edit (originalLines : list jsstring) (w : Working)
    (i : Z) (edit : Edit) : Working * EditResult :=
  match try_edit originalLines w edit with
  | Ok (w', shift) =>
      (w', {| r_index := i; success := true; error := None;
              r_line_start := line_start edit; r_line_end := line_end edit;
              r_shift := Some shift |})
  | Err e =>
      (w, {| r_index := i; success := false; error := Some e;
             r_line_start := line_start edit; r_line_end := line_end edit;
             r_shift := None |})
  end.

(** The edit loop from index [i] on: the final working state and the
    results pushed, in the order they are pushed. *)
Fixpoint process_edits (originalLines : list jsstring) (w : Working)
    (i : Z) (edits : list Edit) : Working * list EditResult :=
  match edits with
  | [] => (w, [])
  | edit :: rest =>
      let '(w', result) := process_edit originalLines w i edit in
      let '(w'', results) := process_edits originalLines w' (i + 1) rest in
      (w'', result :: results)
  end.

(** One line of the report, [Edit i: SUCCESS - lines s-e (shift: n lines)]
    or [Edit i: FAILED - lines s-e - error]. *)
Inductive ReportLine : Type :=
| EditSuccess (i line_start line_end : Z) (shift : option Z)
| EditFailed (i line_start line_end : Z) (error : option UserError).

Definition report_line (r : EditResult) : ReportLine :=
  if success r
  then EditSuccess (r_index r) (r_line_start r) (r_line_end r) (r_shift r)
  else EditFailed (r_index r) (r_line_start r) (r_line_end r) (error r).

(** What the tool returns: the counts of the summary line, the report
    lines, and the [results] they are printed from. *)
Record Report := mkReport {
  successful : nat;
  failed : nat;
  report_lines : list ReportLine;
  results : list EditResult
}.

Definition multireplace_lines_in_file (f : File) (edits : list Edit)
  : File * Result Report :=
  let originalContent := readFileSync f in
  let originalLines := split_lines originalContent in
  let edits := sort compare_edits edits in
  match check_overlaps (-1) edits with
  | Some n => (f, Err (OverlappingRanges n))
  | None =>
      let '(w, results) :=
        process_edits originalLines
          {| workingLines := originalLines; lineShifts := [] |} 0 edits in
      let finalContent := join_lines (workingLines w) in
      (writeFileSync f finalContent,
       Ok {| successful := length (filter success results);
             failed := length (filter (fun r => negb (success r)) results);
             report_lines := map report_line results;
             results := results |})
  end.

(** ** Tool 9: search_directory, the glob matcher *)

Module Glob.

Definition STAR : char16 := 42%N.
Definition QUESTION : char16 := 63%N.
Definition DOT : char16 := 46%N.

(** [s.replace(/c/g, by)] for a single character [c]. *)
Fixpoint replace_char (c : char16) (by_ : jsstring) (s : jsstring) : jsstring :=
  match s with
  | [] => []
  | x :: s' =>
      if (x =? c)%N then by_ ++ replace_char c by_ s'
      else x :: replace_char c by_ s'
  end.

(** The characters with a meaning of their own in a pattern of [RegExp]:
    [\ ^ $ . * + ? ( ) [ ] { } |]. *)
Definition is_syntax_character (c : char16) : bool :=
  ((c =? 92) || (c =? 94) || (c =? 36) || (c =? 46) || (c =? 42)
   || (c =? 43) || (c =? 63) || (c =? 40) || (c =? 41) || (c =? 91)
   || (c =? 93) || (c =? 123) || (c =? 125) || (c =? 124))%N.

(** The regular expressions [new RegExp(`^${body}$`)] this development
    interprets: [body] is a sequence of ordinary characters, [.] and [.*]. *)
Inductive Atom : Type :=
| Lit (c : char16)
| AnyChar
| AnyRun.

(** Reads [body]; [None] when it uses regular-expression syntax other
    than [.] and [.*]. *)
Fixpoint parse_body (body : jsstring) : option (list Atom) :=
  match body with
  | [] => Some []
  | c :: rest =>
      if (c =? DOT)%N then
        match rest with
        | c' :: rest' =>
            if (c' =? STAR)%N
            then option_map (cons AnyRun) (parse_body rest')
            else option_map (cons AnyChar) (parse_body rest)
        | [] => Some [AnyChar]
        end
      else if is_syntax_character c then None
      else option_map (cons (Lit c)) (parse_body rest)
  end.

(** [regex.test(s)] for [^atoms$] without flags: the whole of [s] is
    matched; [.] matches one code unit that is not a line terminator. *)
Fixpoint test (atoms : list Atom) (s : jsstring) : bool :=
  match atoms with
  | [] => match s with [] => true | _ :: _ => false end
  | Lit c :: atoms' =>
      match s with
      | x :: s' => (x =? c)%N && test atoms' s'
      | [] => false
      end
  | AnyChar :: atoms' =>
      match s with
      | x :: s' => negb (is_line_terminator x) && test atoms' s'
      | [] => false
      end
  | AnyRun :: atoms' =>
      (fix run (s : jsstring) : bool :=
         test atoms' s
         || match s with
            | x :: s' => negb (is_line_terminator x) && run s'
            | [] => false
            end) s
  end.

(** [matchesPattern(filename, pattern)]; [pattern] is optional. The result
    is [None] when the regular expression built from [pattern] is outside
    the fragment [parse_body] reads. *)
Definition matchesPattern (filename : jsstring) (pattern : option jsstring)
  : option bool :=
  match pattern with
  | None => Some true
  | Some [] => Some true
  | Some pattern =>
      let regexPattern :=
        replace_char QUESTION (str ".") (replace_char STAR (str ".*") pattern) in
      option_map (fun atoms => test atoms filename) (parse_body regexPattern)
  end.

(** The contract of [matchGlob] as the specification words it: [*] matches
    any run of characters, [?] exactly one character, every other pattern
    character itself, and the whole name is matched. *)
Fixpoint glob_contract (pattern : jsstring) (name : jsstring) : bool :=
  match pattern with
  | [] => match name with [] => true | _ :: _ => false end
  | c :: pattern' =>
      if (c =? STAR)%N then
        (fix run (name : jsstring) : bool :=
           glob_contract pattern' name
           || match name with
              | _ :: name' => run name'
              | [] => false
              end) name
      else if (c =? QUESTION)%N then
        match name with
        | _ :: name' => glob_contract pattern' name'
        | [] => false
        end
      else
        match name with
        | x :: name' => (x =? c)%N && glob_contract pattern' name'
        | [] => false
        end
  end.

End Glob.

(** ** Specification-level notions and example inputs *)

(** The sum of the shifts of the recorded edits that start at or before
    line [line]. *)
Fixpoint accumulated_shift (shifts : list LineShift) (line : Z) : Z :=
  match shifts with
  | [] => 0
  | s :: rest =>
      (if ls_start s <=? line then ls_shift s else 0)
      + accumulated_shift rest line
  end.

(** An engine for patterns that are plain text: the occurrences of the
    text from left to right, without overlap. *)
Module LiteralEngine.

Fixpoint starts_with (lit s : jsstring) : bool :=
  match lit, s with
  | [], _ => true
  | _ :: _, [] => false
  | a :: lit', b :: s' => (a =? b)%N && starts_with lit' s'
  end.

(** [skip] is the number of characters still inside the last occurrence. *)
Fixpoint occurrences (lit : jsstring) (skip : nat) (s : jsstring)
  : list jsstring :=
  match s with
  | [] => []
  | _ :: s' =>
      match skip with
      | S k => occurrences lit k s'
      | O => if starts_with lit s
             then lit :: occurrences lit (length lit - 1) s'
             else occurrences lit 0 s'
      end
  end.


Definition plain (source : jsstring) : bool :=
  negb (existsb Glob.is_syntax_character source)
  && negb (Nat.eqb (length source) 0).


End LiteralEngine.

(** The checks of an iteration that come before the translation: both
    lines exist in the original file, the range is not inverted, and the
    original start line is the expected text. *)
Definition passes_original_checks (originalLines : list jsstring)
    (edit : Edit) : Prop :=
  line_start edit <= Z.of_nat (length originalLines)
  /\ line_end edit <= Z.of_nat (length originalLines)
  /\ line_start edit <= line_end edit
  /\ index originalLines (line_start edit - 1)
     = Some (line_start_contents edit).

Definition two_line_file : File :=
  {| content := str "alpha" ++ LF :: str "beta"; write_log := [] |}.

Definition three_line_file : File :=
  {| content := str "a  b" ++ LF :: str "c" ++ LF :: str "d";
     write_log := [] |}.

(** A result reports on an edit: it carries the edit's line range. *)
Definition describes (r : EditResult) (edit : Edit) : Prop :=
  r_line_start r = line_start edit /\ r_line_end r = line_end edit.

Definition seven_line_file : File :=
  {| content :=
       str "1" ++ LF :: str "2" ++ LF :: str "3" ++ LF :: str "4" ++ LF
       :: str "5" ++ LF :: str "6" ++ LF :: str "7";
     write_log := [] |}.

(** What a result says, apart from its number. *)
Definition outcome (r : EditResult)
  : bool * option UserError * Z * Z * option Z :=
  (success r, error r, r_line_start r, r_line_end r, r_shift r).

(** The iterations of the edit loop: each edit with the working state
    its iteration starts from. *)
Fixpoint iterations (originalLines : list jsstring) (w : Working)
    (edits : list Edit) : list (Working * Edit) :=
  match edits with
  | [] => []
  | edit :: rest =>
      (w, edit)
      :: iterations originalLines (fst (process_edit originalLines w 0 edit))
           rest
  end.

(** The list without its element at position [k]. *)
Definition without {A} (k : nat) (l : list A) : list A :=
  firstn k l ++ skipn (S k) l.

Definition five_line_file : File :=
  {| content :=
       str "Line 1: First line" ++ LF :: str "Line 2: Second line" ++ LF
       :: str "Line 3: Third line with some text" ++ LF
       :: str "Line 4: Fourth line" ++ LF :: str "Line 5: Fifth line";
     write_log := [] |}.

(** The sum of the shifts of the edits of a batch. *)
Fixpoint total_shift (edits : list Edit) : Z :=
  match edits with
  | [] => 0
  | edit :: rest => edit_shift edit + total_shift rest
  end.

(** The sum of the shifts of the edits that end before line [line]. *)
Fixpoint shift_before (edits : list Edit) (line : Z) : Z :=
  match edits with
  | [] => 0
  | edit :: rest =>
      (if line_end edit <? line then edit_shift edit else 0)
      + shift_before rest line
  end.

(** Line [line] is inside the range of the edit. *)
Definition in_range (line : Z) (edit : Edit) : Prop :=
  line_start edit <= line <= line_end edit.

(** The lines a run of successful edits over [originalLines] is expected
    to produce from original line [done + 1] on: the lines between the
    edited ranges as they are, and each edited range replaced by the lines
    of the edit's contents. *)
Fixpoint replaced_lines (originalLines : list jsstring) (done : Z)
    (edits : list Edit) : list jsstring :=
  match edits with
  | [] => skipn (Z.to_nat done) originalLines
  | edit :: rest =>
      firstn (Z.to_nat (line_start edit - 1 - done))
        (skipn (Z.to_nat done) originalLines)
      ++ split_lines (contents edit)
      ++ replaced_lines originalLines (line_end edit) rest
  end.

(** A line holds no line feed. *)
Definition single_line (l : jsstring) : Prop := Forall (fun c => c <> LF) l.

(** The state of the edit loop once the edits ending at or before
    original line [done] are applied: the working copy is [pre], which
    stands for the first [done] original lines and is [shifted] lines
    longer, followed by the original lines after [done]; and [shifted] is
    what the ledger adds up to for any later line. *)
Record applied_through (originalLines : list jsstring) (w : Working)
    (done shifted : Z) (pre : list jsstring) : Prop := {
  at_lines : workingLines w = pre ++ skipn (Z.to_nat done) originalLines;
  at_length : Z.of_nat (length pre) = done + shifted;
  at_done : 0 <= done <= Z.of_nat (length originalLines);
  at_sum : forall line, done < line ->
           accumulated_shift (lineShifts w) line = shifted
}.

(** A pattern whose characters reach the regular expression with the
    meaning the contract gives them: [*], [?] and characters without a
    meaning of their own in a regular expression. *)
Definition plain_pattern (pattern : jsstring) : Prop :=
  Forall (fun c => c = Glob.STAR \/ c = Glob.QUESTION
                   \/ Glob.is_syntax_character c = false) pattern.

(** The atom the translation of a pattern character is read as. *)
Definition atom_of (c : char16) : Glob.Atom :=
  if (c =? Glob.STAR)%N then Glob.AnyRun
  else if (c =? Glob.QUESTION)%N then Glob.AnyChar
  else Glob.Lit c.

(** A name without line terminators. *)
Definition one_line_name (name : jsstring) : Prop :=
  Forall (fun c => is_line_terminator c = false) name.

(** The translated range of an edit lies inside the working copy. *)
Definition translated_inside (w : Working) (edit : Edit) : Prop :=
  currentStartIndex w edit < Z.of_nat (length (workingLines w))
  /\ translatedEndIndex w edit < Z.of_nat (length (workingLines w)).

(** ** Notions used to state further properties *)

(** A text made of white space only. *)
Definition blank (s : jsstring) : Prop := Forall (fun c => is_space c = true) s.

(** One pass over a text that drops its white space and, when [pending],
    puts one space before the next character that is not white space. *)
Fixpoint single_spaced (pending : bool) (s : jsstring) : jsstring :=
  match s with
  | [] => []
  | c :: s' =>
      if is_space c then single_spaced true s'
      else if pending then SPACE :: c :: single_spaced false s'
           else c :: single_spaced false s'
  end.

(** ** Tools 3 and 5: delete_from_file and replace_lines_in_file *)

(** What the two line-range tools throw: an error of [verifyLineContent]
    or of the inverted-range check, or their own message
    [Line range s-e is beyond file length (n lines)]. *)
Inductive LineRangeError : Type :=
| Thrown (e : UserError)
| LineRangeBeyondFile (line_start line_end fileLines : Z).

(** The answer of a line-range tool: the message
    [Successfully deleted/replaced lines s-e], or the error. *)
Inductive RangeResult : Type :=
| RangeDone (line_start line_end : Z)
| RangeFailed (e : LineRangeError).

Definition delete_from_file (f : File) (line_start line_end : Z)
    (line_start_contents : jsstring) : File * RangeResult :=
  match verifyLineContent f line_start line_start_contents with
  | Err e => (f, RangeFailed (Thrown e))
  | Ok _ =>
      let lines := split_lines (readFileSync f) in
      let len := Z.of_nat (length lines) in
      if (line_start >? len) || (line_end >? len)
      then (f, RangeFailed (LineRangeBeyondFile line_start line_end len))
      else if line_start >? line_end
      then (f, RangeFailed (Thrown LineStartAfterLineEnd))
      else
        let newLines :=
          slice lines 0 (line_start - 1) ++ slice_from lines line_end in
        (writeFileSync f (join_lines newLines),
         RangeDone line_start line_end)
  end.

Definition replace_lines_in_file (f : File) (line_start line_end : Z)
    (line_start_contents contents : jsstring) : File * RangeResult :=
  match verifyLineContent f line_start line_start_contents with
  | Err e => (f, RangeFailed (Thrown e))
  | Ok _ =>
      let lines := split_lines (readFileSync f) in
      let len := Z.of_nat (length lines) in
      if (line_start >? len) || (line_end >? len)
      then (f, RangeFailed (LineRangeBeyondFile line_start line_end len))
      else if line_start >? line_end
      then (f, RangeFailed (Thrown LineStartAfterLineEnd))
      else
        let newLines :=
          slice lines 0 (line_start - 1) ++ [contents]
          ++ slice_from lines line_end in
        (writeFileSync f (join_lines newLines),
         RangeDone line_start line_end)
  end.

(** ** Tool 1: read_file *)

(** [String(n)] for an integer; line numbers are far below the 1e21 from
    which JavaScript prints an exponent. *)
Definition number_to_string (n : Z) : jsstring :=
  str (NilZero.string_of_int (Z.to_int n)).

(** An optional number in a condition: [undefined] and [0] are false. *)
Definition truthy_number (n : option Z) : bool :=
  match n with
  | None => false
  | Some n => negb (n =? 0)
  end.

(** [n || d] for an optional number. *)
Definition number_or (n : option Z) (d : Z) : Z :=
  match n with
  | None => d
  | Some n => if n =? 0 then d else n
  end.

Inductive ReadError : Type :=
| FullWithRange
| StartAndEndTogether
| StartAfterEnd
| StartBeyondFile (start_line fileLines : Z)
| EndBeyondFile (end_line fileLines : Z).

(** [lines.map((line, index) => `${n + index} | ${line}`)] *)
Fixpoint number_lines (n : Z) (lines : list jsstring) : list jsstring :=
  match lines with
  | [] => []
  | line :: rest =>
      (number_to_string n ++ str " | " ++ line) :: number_lines (n + 1) rest
  end.

Definition read_file (f : File) (show_line_numbers : bool)
    (start_line end_line : option Z) (full : option bool)
  : ReadError + jsstring :=
  if truthy full && (truthy_number start_line || truthy_number end_line)
  then inl FullWithRange
  else if (truthy_number start_line && negb (truthy_number end_line))
          || (negb (truthy_number start_line) && truthy_number end_line)
  then inl StartAndEndTogether
  else if truthy_number start_line && truthy_number end_line
          && (number_or start_line 0 >? number_or end_line 0)
  then inl StartAfterEnd
  else
    let lines := split_lines (readFileSync f) in
    let len := Z.of_nat (length lines) in
    let selected : ReadError + list jsstring :=
      if truthy full then inr lines
      else if truthy_number start_line && truthy_number end_line then
        if number_or start_line 0 >? len
        then inl (StartBeyondFile (number_or start_line 0) len)
        else if number_or end_line 0 >? len
        then inl (EndBeyondFile (number_or end_line 0) len)
        else inr (slice lines (number_or start_line 0 - 1)
                    (number_or end_line 0))
      else inr lines in
    match selected with
    | inl e => inl e
    | inr resultLines =>
        if show_line_numbers then
          let startLineNum := number_or start_line 1 in
          inr (join_lines (number_lines startLineNum resultLines))
        else inr (join_lines resultLines)
    end.

(** ** Tool 7: search_file *)

(** The host's [new RegExp(source)] and [regex.test(line)]. *)
Record RegExpTest : Type := {
  pattern : Type;
  compile_pattern : jsstring -> option pattern;
  test_line : pattern -> jsstring -> bool
}.

(** One line of context: [> 12 | text] for the matching line, a blank
    instead of [>] for the others. *)
Record ContextLine := mkContextLine {
  ctx_marked : bool;
  ctx_number : Z;
  ctx_text : jsstring
}.

(** One element of [matches]: [Match at line n:] and its context. *)
Record LineMatch := mkLineMatch {
  match_line : Z;
  match_context : list ContextLine
}.

(** [contextLines.map((ctxLine, ctxIndex) => ...)], before it is
    printed; [ctxLineNumber] is [startLine + ctxIndex]. *)
Fixpoint context_lines (lineNumber ctxLineNumber : Z)
    (contextLines : list jsstring) : list ContextLine :=
  match contextLines with
  | [] => []
  | ctxLine :: rest =>
      {| ctx_marked := ctxLineNumber =? lineNumber;
         ctx_number := ctxLineNumber;
         ctx_text := ctxLine |}
      :: context_lines lineNumber (ctxLineNumber + 1) rest
  end.

(** The body of [lines.forEach] for the line at [index] when it matches. *)
Definition match_at (lines : list jsstring) (lines_before lines_after : option Z)
    (index : Z) : LineMatch :=
  let lineNumber := index + 1 in
  let startLine := Z.max 1 (lineNumber - number_or lines_before 0) in
  let endLine :=
    Z.min (Z.of_nat (length lines)) (lineNumber + number_or lines_after 0) in
  let contextLines := slice lines (startLine - 1) endLine in
  {| match_line := lineNumber;
     match_context := context_lines lineNumber startLine contextLines |}.

(** [lines.forEach] from [index] on, over the lines [rest] still to visit. *)
Fixpoint search_lines (T : RegExpTest) (regex : pattern T)
    (lines : list jsstring) (lines_before lines_after : option Z)
    (index : Z) (rest : list jsstring) : list LineMatch :=
  match rest with
  | [] => []
  | line :: rest' =>
      let later :=
        search_lines T regex lines lines_before lines_after (index + 1) rest' in
      if test_line T regex line
      then match_at lines lines_before lines_after index :: later
      else later
  end.

Definition print_context_line (c : ContextLine) : jsstring :=
  (if ctx_marked c then str ">" else str " ")
  ++ str " " ++ number_to_string (ctx_number c) ++ str " | " ++ ctx_text c.

Definition print_match (m : LineMatch) : jsstring :=
  str "Match at line " ++ number_to_string (match_line m) ++ str ":"
  ++ LF :: join_lines (map print_context_line (match_context m)).

(** [matches.join('\n\n')] *)
Fixpoint join_blocks (blocks : list jsstring) : jsstring :=
  match blocks with
  | [] => []
  | [b] => b
  | b :: rest => b ++ LF :: LF :: join_blocks rest
  end.

Inductive SearchResult : Type :=
| InvalidPattern
| NoMatchesInFile (regexp : jsstring)
| MatchesFound (text : jsstring).

Definition search_file (T : RegExpTest) (f : File) (regexp : jsstring)
    (lines_before lines_after : option Z) : SearchResult :=
  let lines := split_lines (readFileSync f) in
  match compile_pattern T regexp with
  | None => InvalidPattern
  | Some regex =>
      let matches :=
        search_lines T regex lines lines_before lines_after 0 lines in
      match matches with
      | [] => NoMatchesInFile regexp
      | _ :: _ => MatchesFound (join_blocks (map print_match matches))
      end
  end.

(** A test for plain text: the line holds the text. *)
Fixpoint holds_text (lit s : jsstring) : bool :=
  LiteralEngine.starts_with lit s
  || match s with
     | [] => false
     | _ :: s' => holds_text lit s'
     end.

Definition literal_test : RegExpTest :=
  {| pattern := jsstring;
     compile_pattern :=
       fun source => if LiteralEngine.plain source then Some source else None;
     test_line := holds_text |}.

(** The single-range tool applied to the edits of a list, one after the
    other, each on the file the one before left. *)
Fixpoint replace_each (f : File) (edits : list Edit) : File :=
  match edits with
  | [] => f
  | edit :: rest =>
      replace_each
        (fst (replace_lines_in_file f (line_start edit) (line_end edit)
                (line_start_contents edit) (contents edit)))
        rest
  end.

(** * Properties *)

(** ** The scenarios of the test suite *)

Example normalizeContent_spaces :
  normalizeContent (str "  hello   world  ") = str "hello world".
Proof. reflexivity. Qed.

Example normalizeContent_tabs_and_line_feeds :
  normalizeContent
    ([9; 9]%N ++ str "hello" ++ [10; 10]%N ++ str "world" ++ [9; 9]%N)
  = str "hello world".
Proof. reflexivity. Qed.

Example normalizeContent_blank :
  normalizeContent (str "   ") = [] /\ normalizeContent [] = [].
Proof. split; reflexivity. Qed.

Example verifyLineContent_whitespace :
  verifyLineContent five_line_file 1 (str "  Line 1:   First line  ")
  = Ok (str "Line 1: First line").
Proof. reflexivity. Qed.

Example verifyLineContent_out_of_bounds :
  verifyLineContent five_line_file 20 (str "test")
  = Err (LineDoesNotExist 20 5).
Proof. reflexivity. Qed.

Example insert_before_line_3 :
  insert_into_file two_line_file 2 (str "beta") before (str "NEW")
  = (writeFileSync two_line_file
       (str "alpha" ++ LF :: str "NEW" ++ LF :: str "beta"),
     Ok (AtLine before 2)).
Proof. reflexivity. Qed.

Example multireplace_second_edit_not_found :
  let edits :=
    [ {| line_start := 2; line_end := 4;
         line_start_contents := str "Line 2: Second line";
         contents := str "REPLACED LINES 2-4" ++ LF
                     :: str "This is replacement content" ++ LF
                     :: str "End of replacement" |};
      {| line_start := 6; line_end := 6;
         line_start_contents := str "Line 5: Fifth line";
         contents := str "ADDITIONAL REPLACEMENT" |} ] in
  exists f' report,
    multireplace_lines_in_file five_line_file edits = (f', Ok report)
    /\ successful report = 1%nat /\ failed report = 1%nat
    /\ report_lines report
       = [ EditSuccess 0 2 4 (Some 0);
           EditFailed 1 6 6 (Some (LineNotInOriginal 6 5)) ]
    /\ length (split_lines (content f')) = 5%nat.
Proof. do 2 eexists. split; [reflexivity|]. repeat split. Qed.

Example multireplace_overlapping_ranges :
  let edits :=
    [ {| line_start := 2; line_end := 4;
         line_start_contents := str "Line 2: Second line";
         contents := str "SUCCESSFUL REPLACEMENT" |};
      {| line_start := 2; line_end := 4;
         line_start_contents := str "Wrong content";
         contents := str "FAILED REPLACEMENT" |};
      {| line_start := 3; line_end := 3;
         line_start_contents := str "Line 3: Third line with some text";
         contents := str "ANOTHER SUCCESSFUL REPLACEMENT" |} ] in
  multireplace_lines_in_file five_line_file edits
  = (five_line_file, Err (OverlappingRanges 2)).
Proof. reflexivity. Qed.

Example multireplace_empty_edits :
  multireplace_lines_in_file five_line_file []
  = (writeFileSync five_line_file (content five_line_file),
     Ok {| successful := 0; failed := 0; report_lines := [];
           results := [] |}).
Proof. reflexivity. Qed.

Example matchesPattern_include_py :
  Glob.matchesPattern (str "script.py") (Some (str "*.py")) = Some true
  /\ Glob.matchesPattern (str "simple.txt") (Some (str "*.py")) = Some false.
Proof. split; reflexivity. Qed.

(** ** Lines of a text *)

Lemma split_lines_nonempty (s : jsstring) : split_lines s <> [].
Proof.
  destruct s as [|c s]; simpl; [discriminate|].
  destruct (c =? LF)%N; [discriminate|].
  destruct (split_lines s); discriminate.
Qed.

Lemma join_lines_cons (l : jsstring) (rest : list jsstring) :
  rest <> [] -> join_lines (l :: rest) = l ++ LF :: join_lines rest.
Proof. destruct rest; [congruence | reflexivity]. Qed.

(** Joining the lines of a text gives the text back. *)
Lemma join_split_lines (s : jsstring) : join_lines (split_lines s) = s.
Proof.
  induction s as [|c s IH]; [reflexivity|].
  simpl. destruct (c =? LF)%N eqn:Hc.
  - apply N.eqb_eq in Hc. subst c.
    rewrite join_lines_cons by apply split_lines_nonempty.
    simpl. now rewrite IH.
  - pose proof (split_lines_nonempty s) as Hne.
    destruct (split_lines s) as [|l ls]; [congruence|].
    destruct ls as [|l' ls].
    + simpl in *. now rewrite IH.
    + rewrite join_lines_cons in IH by discriminate.
      rewrite join_lines_cons by discriminate.
      rewrite <- IH. reflexivity.
Qed.

Lemma strict_eqb_eq (a b : jsstring) : strict_eqb a b = true <-> a = b.
Proof.
  unfold strict_eqb. destruct (string_eq_dec a b); split; congruence.
Qed.

Lemma strict_eqb_neq (a b : jsstring) : strict_eqb a b = false <-> a <> b.
Proof.
  unfold strict_eqb. destruct (string_eq_dec a b); split; congruence.
Qed.


Lemma index_Some_range {A} (arr : list A) (i : Z) (x : A) :
  index arr i = Some x -> 0 <= i < Z.of_nat (length arr).
Proof.
  unfold index. destruct (i <? 0) eqn:Hi; [discriminate|].
  intros H. apply Z.ltb_ge in Hi.
  assert (Z.to_nat i < length arr)%nat
    by (apply nth_error_Some; congruence).
  lia.
Qed.

Lemma index_in_range {A} (arr : list A) (i : Z) :
  0 <= i < Z.of_nat (length arr) -> exists x, index arr i = Some x.
Proof.
  intros H. unfold index.
  destruct (i <? 0) eqn:Hi; [apply Z.ltb_lt in Hi; lia|].
  destruct (nth_error arr (Z.to_nat i)) eqn:Hn; [eauto|].
  apply nth_error_None in Hn. lia.
Qed.

(** ** insert_into_file *)

(** What [verifyLineContent] decides: the line exists and its normalized
    text is the normalized expected text. *)
Lemma verifyLineContent_Ok (f : File) (lineNumber : Z) (expected : jsstring) :
  (exists actual, verifyLineContent f lineNumber expected = Ok actual)
  <-> (exists actual,
         index (split_lines (content f)) (lineNumber - 1) = Some actual
         /\ normalizeContent actual = normalizeContent expected).
Proof.
  unfold verifyLineContent, readFileSync, normalizeContent.
  destruct ((lineNumber <? 1) || (lineNumber >? Z.of_nat (length (split_lines (content f)))))
    eqn:Hb.
  - split; intros [a H]; [discriminate|].
    destruct H as [H _]. apply index_Some_range in H.
    apply orb_true_iff in Hb. destruct Hb as [Hb|Hb].
    + apply Z.ltb_lt in Hb. lia.
    + apply Z.gtb_lt in Hb. lia.
  - destruct (index (split_lines (content f)) (lineNumber - 1)) as [actual|] eqn:Hi.
    + destruct (strict_eqb _ _) eqn:He.
      * apply strict_eqb_eq in He. split; intros _; eauto.
      * apply strict_eqb_neq in He.
        split; intros [a H]; [discriminate|].
        destruct H as [H1 H2]. congruence.
    + split; intros [a H]; [discriminate|]. destruct H; discriminate.
Qed.



(** ** replace_in_file *)



(** ** The glob matcher *)

Section GlobAgreement.

Import Glob.

Local Abbreviation body_of pattern :=
  (replace_char QUESTION (str ".") (replace_char STAR (str ".*") pattern)).

(** The two replacements, one pattern character at a time. *)
Lemma body_of_cons (c : char16) (rest : jsstring) :
  body_of (c :: rest)
  = if (c =? STAR)%N then DOT :: STAR :: body_of rest
    else if (c =? QUESTION)%N then DOT :: body_of rest
    else c :: body_of rest.
Proof.
  cbn [replace_char]. destruct (c =? STAR)%N; [reflexivity|].
  cbn [replace_char]. now destruct (c =? QUESTION)%N.
Qed.

Lemma body_of_head_not_star (rest : jsstring) :
  plain_pattern rest ->
  match body_of rest with
  | [] => True
  | c :: _ => c <> STAR
  end.
Proof.
  destruct 1 as [|c rest Hc _]; [exact I|].
  rewrite body_of_cons.
  destruct (c =? STAR)%N eqn:Hs; [discriminate|].
  destruct (c =? QUESTION)%N eqn:Hq; [discriminate|].
  now apply N.eqb_neq in Hs.
Qed.

(** On a plain pattern the two replacements give a regular expression of
    the fragment, one atom per pattern character. *)
Lemma parse_body_plain (pattern : jsstring) :
  plain_pattern pattern ->
  parse_body (body_of pattern) = Some (map atom_of pattern).
Proof.
  induction 1 as [|c rest Hc Hrest IH]; [reflexivity|].
  pose proof (body_of_head_not_star rest Hrest) as Hhead.
  rewrite body_of_cons. cbn [map]. unfold atom_of at 1.
  destruct (c =? STAR)%N eqn:Hs.
  - cbn [parse_body]. rewrite !N.eqb_refl, IH. reflexivity.
  - destruct (c =? QUESTION)%N eqn:Hq.
    + cbn [parse_body]. rewrite N.eqb_refl.
      destruct (body_of rest) as [|c' R] eqn:HR.
      * destruct rest as [|c'' rest']; [reflexivity|].
        rewrite body_of_cons in HR.
        destruct (c'' =? STAR)%N; [discriminate|].
        destruct (c'' =? QUESTION)%N; discriminate.
      * apply N.eqb_neq in Hhead. rewrite Hhead, IH. reflexivity.
    + apply N.eqb_neq in Hs. apply N.eqb_neq in Hq.
      destruct Hc as [Hc|[Hc|Hc]]; [congruence | congruence |].
      cbn [parse_body]. rewrite Hc.
      assert ((c =? DOT)%N = false) as ->.
      { apply N.eqb_neq. intros ->. discriminate. }
      now rewrite IH.
Qed.

(** On a name without line terminators the regular expression of a
    pattern decides what the contract of [matchGlob] says. *)
Lemma test_plain_is_contract (pattern : jsstring) :
  forall name : jsstring,
    one_line_name name ->
    test (map atom_of pattern) name = glob_contract pattern name.
Proof.
  induction pattern as [|c rest IH]; intros name Hname; [reflexivity|].
  cbn [map glob_contract]. unfold atom_of at 1.
  destruct (c =? STAR)%N eqn:Hs.
  - cbn [test].
    induction Hname as [|x name Hx Hname IHname].
    + rewrite IH by constructor. reflexivity.
    + rewrite IH by now constructor. rewrite Hx. cbn [negb andb].
      f_equal. exact IHname.
  - destruct (c =? QUESTION)%N eqn:Hq; cbn [test].
    + destruct Hname as [|x name Hx Hname]; [reflexivity|].
      rewrite Hx. cbn [negb andb]. now apply IH.
    + destruct Hname as [|x name Hx Hname]; [reflexivity|].
      f_equal. now apply IH.
Qed.

(** X21. Where the matcher and the contract agree: a pattern that is
    present, not empty and plain ([*], [?] and characters without a
    meaning in a regular expression), and a name without line
    terminators. *)
Lemma matchesPattern_plain (name pattern : jsstring) :
  pattern <> [] -> plain_pattern pattern -> one_line_name name ->
  matchesPattern name (Some pattern) = Some (glob_contract pattern name).
Proof.
  intros Hne Hplain Hname. unfold matchesPattern.
  destruct pattern as [|c rest]; [congruence|].
  rewrite (parse_body_plain _ Hplain). cbn [option_map].
  now rewrite test_plain_is_contract.
Qed.

End GlobAgreement.

(** C9. The include pattern [*.ts] accepts the file name [xats], which the
    contract of [matchGlob] rejects: the [.] of the pattern reaches the
    regular expression unescaped and matches any character. *)
Theorem matchesPattern_dot_matches_any_character :
  Glob.matchesPattern (str "xats") (Some (str "*.ts")) = Some true
  /\ Glob.glob_contract (str "*.ts") (str "xats") = false.
Proof. split; reflexivity. Qed.

(** ** The content check of the batch tool *)

(** What the batch tool checks: for an edit whose lines are within the
    original file, the iteration throws the content-verification error
    exactly when the original start line and the expected text differ as
    strings. *)
Lemma try_edit_content_check (originalLines : list jsstring) (w : Working)
    (edit : Edit) (originalLineContent : jsstring) :
  line_start edit <= line_end edit <= Z.of_nat (length originalLines) ->
  index originalLines (line_start edit - 1) = Some originalLineContent ->
  try_edit originalLines w edit
  = Err (LineContentVerificationFailed (line_start edit)
           (normalizeContent (line_start_contents edit))
           (normalizeContent originalLineContent))
  <-> originalLineContent <> line_start_contents edit.
Proof.
  intros Hrange Hi. unfold try_edit. rewrite Hi.
  destruct (line_start edit >? _) eqn:H1; [apply Z.gtb_lt in H1; lia|].
  destruct (line_end edit >? _) eqn:H2; [apply Z.gtb_lt in H2; lia|].
  destruct (line_start edit >? line_end edit) eqn:H3;
    [apply Z.gtb_lt in H3; lia|].
  destruct (strict_eqb originalLineContent (line_start_contents edit)) eqn:He;
    cbn [negb].
  - apply strict_eqb_eq in He. split; [|congruence].
    destruct (currentStartIndex w edit >=? _); discriminate.
  - apply strict_eqb_neq in He. split; [intros _; exact He | reflexivity].
Qed.

(** C2. On a file whose first line is [a  b] an edit of line 1 that
    expects [a b] is rejected with the content-verification error, although
    the two texts have the same normalized form: the tool compares the
    line and the expected text as they are. The single-edit tools accept
    the same expectation through [verifyLineContent]. *)
Theorem multireplace_content_check_is_not_normalized :
  let edit := {| line_start := 1; line_end := 1;
                 line_start_contents := str "a b"; contents := str "x" |} in
  normalizeContent (str "a  b") = normalizeContent (str "a b")
  /\ verifyLineContent three_line_file 1 (str "a b") = Ok (str "a  b")
  /\ exists r,
       snd (multireplace_lines_in_file three_line_file [edit])
       = Ok {| successful := 0; failed := 1;
               report_lines := [report_line r]; results := [r] |}
       /\ success r = false
       /\ error r = Some (LineContentVerificationFailed 1 (str "a b") (str "a b")).
Proof.
  intros edit. split; [reflexivity|]. split; [reflexivity|].
  eexists. split; [reflexivity|]. split; reflexivity.
Qed.

(** ** One iteration of the edit loop *)


Lemma adjustment_from (shifts : list LineShift) (edit : Edit) (acc : Z) :
  fold_left
    (fun acc shift =>
       if ls_start shift <=? line_start edit then acc + ls_shift shift else acc)
    shifts acc
  = acc + accumulated_shift shifts (line_start edit).
Proof.
  revert acc. induction shifts as [|s rest IH]; intros acc; simpl; [lia|].
  rewrite IH. destruct (ls_start s <=? line_start edit); lia.
Qed.

Lemma adjustment_accumulated (shifts : list LineShift) (edit : Edit) :
  adjustment shifts edit = accumulated_shift shifts (line_start edit).
Proof. unfold adjustment. now rewrite adjustment_from. Qed.

(** A failed iteration leaves the working copy and the ledger alone. *)
Lemma process_edit_failure (originalLines : list jsstring) (w : Working)
    (i : Z) (edit : Edit) :
  success (snd (process_edit originalLines w i edit)) = false ->
  fst (process_edit originalLines w i edit) = w.
Proof.
  unfold process_edit.
  destruct (try_edit originalLines w edit) as [[w' shift]|e]; simpl;
    [discriminate | reflexivity].
Qed.

Lemma process_edit_success (originalLines : list jsstring) (w : Working)
    (i : Z) (edit : Edit) :
  success (snd (process_edit originalLines w i edit)) = true ->
  exists w', try_edit originalLines w edit = Ok (w', edit_shift edit)
    /\ process_edit originalLines w i edit
       = (w', {| r_index := i; success := true; error := None;
                 r_line_start := line_start edit;
                 r_line_end := line_end edit;
                 r_shift := Some (edit_shift edit) |}).
Proof.
  unfold process_edit.
  destruct (try_edit originalLines w edit) as [[w' shift]|e] eqn:Ht; simpl;
    [intros _ | discriminate].
  assert (shift = edit_shift edit) as ->.
  { unfold try_edit in Ht.
    repeat match type of Ht with
           | (if ?b then _ else _) = _ => destruct b; try discriminate
           | match ?o with Some _ => _ | None => _ end = _ =>
               destruct o; try discriminate
           end.
    now inversion Ht. }
  eauto.
Qed.

Lemma try_edit_after_checks (originalLines : list jsstring) (w : Working)
    (edit : Edit) :
  passes_original_checks originalLines edit ->
  try_edit originalLines w edit
  = if currentStartIndex w edit >=? Z.of_nat (length (workingLines w))
    then Err (TargetRangeGone (line_start edit))
    else Ok ({| workingLines :=
                  slice (workingLines w) 0 (currentStartIndex w edit)
                  ++ split_lines (contents edit)
                  ++ slice_from (workingLines w) (currentEndIndex w edit + 1);
                lineShifts := lineShifts w
                  ++ [ {| ls_start := line_start edit;
                          ls_end := line_end edit;
                          ls_shift := edit_shift edit |} ] |},
             edit_shift edit).
Proof.
  intros (Hs & He & Hr & Hi). unfold try_edit.
  destruct (line_start edit >? _) eqn:H1; [apply Z.gtb_lt in H1; lia|].
  destruct (line_end edit >? _) eqn:H2; [apply Z.gtb_lt in H2; lia|].
  destruct (line_start edit >? line_end edit) eqn:H3;
    [apply Z.gtb_lt in H3; lia|].
  rewrite Hi.
  assert (strict_eqb (line_start_contents edit) (line_start_contents edit)
          = true) as -> by now apply strict_eqb_eq.
  reflexivity.
Qed.




(** ** The edit loop *)

Lemma process_edits_cons (originalLines : list jsstring) (w : Working)
    (i : Z) (edit : Edit) (rest : list Edit) :
  process_edits originalLines w i (edit :: rest)
  = (fst (process_edits originalLines
            (fst (process_edit originalLines w i edit)) (i + 1) rest),
     snd (process_edit originalLines w i edit)
     :: snd (process_edits originalLines
               (fst (process_edit originalLines w i edit)) (i + 1) rest)).
Proof.
  simpl. destruct (process_edit originalLines w i edit) as [w' r].
  simpl. now destruct (process_edits originalLines w' (i + 1) rest).
Qed.


Lemma multireplace_completed (f f' : File) (edits : list Edit)
    (report : Report) :
  multireplace_lines_in_file f edits = (f', Ok report) ->
  let originalLines := split_lines (content f) in
  let run :=
    process_edits originalLines
      {| workingLines := originalLines; lineShifts := [] |} 0
      (sort compare_edits edits) in
  check_overlaps (-1) (sort compare_edits edits) = None
  /\ f' = writeFileSync f (join_lines (workingLines (fst run)))
  /\ results report = snd run
  /\ report_lines report = map report_line (snd run)
  /\ successful report = length (filter success (snd run))
  /\ failed report = length (filter (fun r => negb (success r)) (snd run)).
Proof.
  unfold multireplace_lines_in_file, readFileSync.
  destruct (check_overlaps (-1) (sort compare_edits edits)); [discriminate|].
  destruct (process_edits _ _ _ _) as [w rs]. intros H.
  inversion H; subst. simpl. repeat split.
Qed.



(** ** The sort *)

Section SortFacts.

Context {A : Type}.
Variable cmp : A -> A -> Z.

Local Abbreviation le_ := (cmp_le cmp).

Hypothesis cmp_total : forall a b, ~ le_ a b -> le_ b a.
Hypothesis cmp_trans : forall a b c, le_ a b -> le_ b c -> le_ a c.

Lemma sort_insert_perm (x : A) (l : list A) :
  Permutation (sort_insert cmp x l) (x :: l).
Proof.
  induction l as [|y l IH]; simpl; [reflexivity|].
  destruct (cmp x y <=? 0); [reflexivity|].
  rewrite IH. apply perm_swap.
Qed.

Lemma sort_perm (l : list A) : Permutation (sort cmp l) l.
Proof.
  induction l as [|x l IH]; simpl; [reflexivity|].
  rewrite sort_insert_perm. now constructor.
Qed.

Lemma sort_length (l : list A) : length (sort cmp l) = length l.
Proof. apply Permutation_length, sort_perm. Qed.

Lemma sort_insert_sorted (x : A) (l : list A) :
  Sorted le_ l -> Sorted le_ (sort_insert cmp x l).
Proof.
  induction l as [|y l IH]; intros Hs; simpl.
  - repeat constructor.
  - destruct (cmp x y <=? 0) eqn:Hc.
    + apply Z.leb_le in Hc. constructor; [exact Hs|]. now constructor.
    + apply Z.leb_gt in Hc. inversion Hs as [|? ? Hl Hhd]; subst.
      constructor; [now apply IH|].
      assert (le_ y x) as Hyx by (apply cmp_total; unfold cmp_le; lia).
      destruct l as [|z l]; simpl; [now constructor|].
      destruct (cmp x z <=? 0); constructor; [exact Hyx|].
      now inversion Hhd.
Qed.

Lemma sort_sorted (l : list A) : Sorted le_ (sort cmp l).
Proof.
  induction l as [|x l IH]; simpl; [constructor|].
  now apply sort_insert_sorted.
Qed.

Lemma sort_strongly_sorted (l : list A) : StronglySorted le_ (sort cmp l).
Proof.
  apply Sorted_StronglySorted; [|apply sort_sorted].
  intros a b c. apply cmp_trans.
Qed.

(** An array that is already in order is left as it is. *)
Lemma sort_of_sorted (l : list A) : Sorted le_ l -> sort cmp l = l.
Proof.
  induction l as [|x l IH]; intros Hs; [reflexivity|].
  inversion Hs as [|? ? Hl Hhd]; subst. simpl. rewrite (IH Hl).
  destruct l as [|y l]; [reflexivity|]. simpl.
  inversion Hhd as [|? ? Hxy]; subst. unfold cmp_le in Hxy.
  apply Z.leb_le in Hxy. now rewrite Hxy.
Qed.

Lemma sort_insert_split (x : A) (l : list A) :
  exists s1 s2, sort_insert cmp x l = s1 ++ x :: s2 /\ l = s1 ++ s2.
Proof.
  induction l as [|y l (s1 & s2 & H1 & H2)]; simpl.
  - now exists [], [].
  - destruct (cmp x y <=? 0).
    + now exists [], (y :: l).
    + exists (y :: s1), s2. simpl. now rewrite H1, H2.
Qed.

(** Inserting into a sorted array with and without one of its elements
    gives arrays that differ by that element. *)
Lemma sort_insert_delete (x e : A) (s1 s2 : list A) :
  Sorted le_ (s1 ++ e :: s2) ->
  exists t1 t2,
    sort_insert cmp x (s1 ++ e :: s2) = t1 ++ e :: t2
    /\ sort_insert cmp x (s1 ++ s2) = t1 ++ t2.
Proof.
  induction s1 as [|y s1 IH]; intros Hs; simpl.
  - destruct (cmp x e <=? 0) eqn:Hc.
    + exists [x], s2. split; [reflexivity|].
      destruct s2 as [|z s2]; [reflexivity|]. simpl.
      apply Z.leb_le in Hc.
      inversion Hs as [|? ? _ Hhd]; subst. inversion Hhd as [|? ? Hez]; subst.
      assert (le_ x z) as Hxz by (eapply cmp_trans; eauto).
      unfold cmp_le in Hxz. apply Z.leb_le in Hxz. now rewrite Hxz.
    + exists [], (sort_insert cmp x s2). now split.
  - destruct (cmp x y <=? 0).
    + exists (x :: y :: s1), s2. now split.
    + inversion Hs as [|? ? Hl _]; subst.
      destruct (IH Hl) as (t1 & t2 & H1 & H2).
      exists (y :: t1), t2. simpl. now rewrite H1, H2.
Qed.

(** The sort is stable under withdrawal: sorting a batch without one of
    its edits gives the sorted batch without that edit. *)
Lemma sort_delete (l1 l2 : list A) (e : A) :
  exists s1 s2,
    sort cmp (l1 ++ e :: l2) = s1 ++ e :: s2
    /\ sort cmp (l1 ++ l2) = s1 ++ s2.
Proof.
  induction l1 as [|x l1 (s1 & s2 & H1 & H2)]; simpl.
  - apply sort_insert_split.
  - rewrite H1, H2. apply sort_insert_delete.
    rewrite <- H1. apply sort_sorted.
Qed.

End SortFacts.

(** The comparator of the tool orders edits by [(line_start, line_end)]. *)
Lemma compare_edits_le (a b : Edit) :
  cmp_le compare_edits a b
  <-> line_start a < line_start b
      \/ (line_start a = line_start b /\ line_end a <= line_end b).
Proof.
  unfold cmp_le, compare_edits.
  destruct (line_start a <? line_start b) eqn:H1.
  { apply Z.ltb_lt in H1. split; [intros _; now left | lia]. }
  apply Z.ltb_ge in H1.
  destruct (line_start a >? line_start b) eqn:H2.
  { apply Z.gtb_lt in H2. split; lia. }
  assert (line_start a = line_start b) as Heq.
  { destruct (Z.gtb_spec (line_start a) (line_start b)); [discriminate|lia]. }
  destruct (line_end a <? line_end b) eqn:H3.
  { apply Z.ltb_lt in H3. split; [intros _; right; lia | lia]. }
  apply Z.ltb_ge in H3.
  destruct (line_end a >? line_end b) eqn:H4.
  { apply Z.gtb_lt in H4. split; lia. }
  destruct (Z.gtb_spec (line_end a) (line_end b)); [discriminate|].
  split; [intros _; right; lia | lia].
Qed.

Lemma compare_edits_total (a b : Edit) :
  ~ cmp_le compare_edits a b -> cmp_le compare_edits b a.
Proof. rewrite !compare_edits_le. lia. Qed.

Lemma compare_edits_trans (a b c : Edit) :
  cmp_le compare_edits a b -> cmp_le compare_edits b c ->
  cmp_le compare_edits a c.
Proof. rewrite !compare_edits_le. lia. Qed.

Lemma sorted_edits (edits : list Edit) :
  StronglySorted (cmp_le compare_edits) (sort compare_edits edits).
Proof.
  apply sort_strongly_sorted.
  - apply compare_edits_total.
  - apply compare_edits_trans.
Qed.

(** ** The overlap check *)



Lemma strongly_sorted_app_r {A} (R : A -> A -> Prop) (l1 l2 : list A) :
  StronglySorted R (l1 ++ l2) -> StronglySorted R l2.
Proof.
  induction l1 as [|x l1 IH]; simpl; [trivial|].
  intros H. inversion H; subst. now apply IH.
Qed.


(** Two elements of a permutation stand one before the other. *)
Lemma perm_two_split {A} (s rest : list A) (a b : A) :
  Permutation s (a :: b :: rest) ->
  exists s1 s2 s3,
    s = s1 ++ a :: s2 ++ b :: s3 \/ s = s1 ++ b :: s2 ++ a :: s3.
Proof.
  intros Hp.
  assert (In a s) as Ha
      by (eapply Permutation_in; [symmetry; exact Hp | now left]).
  destruct (in_split _ _ Ha) as (t1 & t2 & ->).
  apply Permutation_sym, Permutation_cons_app_inv in Hp.
  assert (In b (t1 ++ t2)) as Hb
      by (eapply Permutation_in; [exact Hp | now left]).
  apply in_app_or in Hb. destruct Hb as [Hb|Hb];
    destruct (in_split _ _ Hb) as (r1 & r2 & ->).
  - exists r1, r2, t2. right. now rewrite <- app_assoc.
  - exists t1, r1, r2. now left.
Qed.




(** ** The results of a batch *)

Lemma process_edit_result (originalLines : list jsstring) (w : Working)
    (i : Z) (edit : Edit) :
  r_index (snd (process_edit originalLines w i edit)) = i
  /\ describes (snd (process_edit originalLines w i edit)) edit.
Proof.
  unfold process_edit, describes.
  destruct (try_edit originalLines w edit) as [[w' shift]|e]; simpl; auto.
Qed.

(** The loop pushes one result per edit, in the order of the array it
    runs over, and numbers them from [i] on. *)
Lemma process_edits_results (originalLines : list jsstring)
    (edits : list Edit) :
  forall (w : Working) (i : Z),
    Forall2 describes (snd (process_edits originalLines w i edits)) edits
    /\ forall (k : nat) (r : EditResult),
         nth_error (snd (process_edits originalLines w i edits)) k = Some r ->
         r_index r = i + Z.of_nat k.
Proof.
  induction edits as [|edit rest IH]; intros w i.
  - split; [constructor|]. intros [|k] r; discriminate.
  - rewrite process_edits_cons. cbn [snd].
    destruct (process_edit_result originalLines w i edit) as [Hi Hd].
    destruct (IH (fst (process_edit originalLines w i edit)) (i + 1))
      as [Hall Hidx].
    split; [now constructor|].
    intros [|k] r; simpl.
    + intros [= <-]. lia.
    + intros Hk. rewrite (Hidx _ _ Hk). lia.
Qed.

(** C1, as the specification states it, fails. The caller submits the edit
    of line 3 first and the edit of line 1 second; the first result, the
    one numbered 0 and printed first, is the one of the edit of line 1. *)
Lemma outcomes_not_in_submission_order :
  let first := {| line_start := 3; line_end := 3;
                  line_start_contents := str "d"; contents := str "D" |} in
  let second := {| line_start := 1; line_end := 1;
                   line_start_contents := str "a  b"; contents := str "A" |} in
  exists f' report r0 r1,
    multireplace_lines_in_file three_line_file [first; second]
    = (f', Ok report)
    /\ results report = [r0; r1]
    /\ r_index r0 = 0 /\ describes r0 second /\ ~ describes r0 first
    /\ report_lines report
       = [EditSuccess 0 1 1 (Some 0); EditSuccess 1 3 3 (Some 0)].
Proof.
  intros first second.
  do 4 eexists. split; [reflexivity|]. split; [reflexivity|].
  repeat split. intros [H _]. discriminate.
Qed.

(** C1, amended. A batch that passes the overlap check returns exactly one
    result per submitted edit. The result at position [k] carries the
    index [k] and reports on the edit at position [k] of the batch sorted
    by [(line_start, line_end)], and the report lines are printed from the
    results in that same order. For a batch submitted in ascending order
    this is the order of submission. *)
Theorem outcomes_follow_processing_order
    (f f' : File) (edits : list Edit) (report : Report) :
  multireplace_lines_in_file f edits = (f', Ok report) ->
  length (results report) = length edits
  /\ Forall2 describes (results report) (sort compare_edits edits)
  /\ (forall (k : nat) (r : EditResult),
        nth_error (results report) k = Some r -> r_index r = Z.of_nat k)
  /\ report_lines report = map report_line (results report)
  /\ (Sorted (cmp_le compare_edits) edits ->
      Forall2 describes (results report) edits).
Proof.
  intros Hcall.
  destruct (multireplace_completed _ _ _ _ Hcall)
    as (_ & _ & Hres & Hlines & _).
  rewrite Hlines, Hres.
  match goal with
  | |- context [process_edits ?o ?w 0 ?es] =>
      destruct (process_edits_results o es w 0) as [Hall Hidx]
  end.
  split.
  { rewrite (Forall2_length Hall). apply sort_length. }
  split; [exact Hall|].
  split; [intros k r Hk; now rewrite (Hidx _ _ Hk)|].
  split; [reflexivity|].
  intros Hsorted. now rewrite (sort_of_sorted _ _ Hsorted) in Hall |- *.
Qed.

Lemma outcomes_follow_processing_order_witness :
  let first := {| line_start := 3; line_end := 3;
                  line_start_contents := str "d"; contents := str "D" |} in
  let second := {| line_start := 1; line_end := 1;
                   line_start_contents := str "a  b"; contents := str "A" |} in
  exists f' report,
    multireplace_lines_in_file three_line_file [first; second]
    = (f', Ok report)
    /\ length (results report) = 2%nat
    /\ Forall2 describes (results report) [second; first].
Proof.
  intros first second. do 2 eexists. split; [reflexivity|].
  match goal with
  | |- length (results ?rep) = _ /\ _ =>
      pose proof (outcomes_follow_processing_order three_line_file _
                    [first; second] rep eq_refl) as (Hlen & Hall & _)
  end.
  split; [exact Hlen | exact Hall].
Defined.

(** ** Isolation of a failing edit *)

Lemma without_app {A} (l1 l2 : list A) (x : A) :
  without (length l1) (l1 ++ x :: l2) = l1 ++ l2.
Proof.
  induction l1 as [|a l1 IH]; [reflexivity|].
  unfold without in *.
  change (a :: (firstn (length l1) (l1 ++ x :: l2)
                ++ skipn (S (length l1)) (l1 ++ x :: l2))
          = a :: (l1 ++ l2)).
  now rewrite IH.
Qed.

(** The number of an iteration only shows in the number of its result. *)
Lemma process_edit_index (originalLines : list jsstring) (w : Working)
    (i j : Z) (edit : Edit) :
  fst (process_edit originalLines w i edit)
  = fst (process_edit originalLines w j edit)
  /\ outcome (snd (process_edit originalLines w i edit))
     = outcome (snd (process_edit originalLines w j edit)).
Proof.
  unfold process_edit.
  destruct (try_edit originalLines w edit) as [[w' shift]|e]; now split.
Qed.

Lemma process_edits_index (originalLines : list jsstring)
    (edits : list Edit) :
  forall (w : Working) (i j : Z),
    fst (process_edits originalLines w i edits)
    = fst (process_edits originalLines w j edits)
    /\ map outcome (snd (process_edits originalLines w i edits))
       = map outcome (snd (process_edits originalLines w j edits)).
Proof.
  induction edits as [|edit rest IH]; intros w i j; [now split|].
  rewrite !process_edits_cons. cbn [fst snd map].
  destruct (process_edit_index originalLines w i j edit) as [-> ->].
  destruct (IH (fst (process_edit originalLines w j edit)) (i + 1) (j + 1))
    as [-> ->].
  now split.
Qed.

Lemma process_edits_app (originalLines : list jsstring)
    (l1 l2 : list Edit) :
  forall (w : Working) (i : Z),
    let w1 := fst (process_edits originalLines w i l1) in
    fst (process_edits originalLines w i (l1 ++ l2))
    = fst (process_edits originalLines w1 (i + Z.of_nat (length l1)) l2)
    /\ snd (process_edits originalLines w i (l1 ++ l2))
       = snd (process_edits originalLines w i l1)
         ++ snd (process_edits originalLines w1
                   (i + Z.of_nat (length l1)) l2).
Proof.
  induction l1 as [|edit rest IH]; intros w i.
  - simpl. rewrite Z.add_0_r. now split.
  - cbn zeta. change ((edit :: rest) ++ l2) with (edit :: rest ++ l2).
    rewrite !process_edits_cons. cbn [fst snd].
    destruct (IH (fst (process_edit originalLines w i edit)) (i + 1))
      as [H1 H2].
    cbn zeta in H1, H2. rewrite H1, H2.
    replace (i + 1 + Z.of_nat (length rest))
      with (i + Z.of_nat (length (edit :: rest)))
      by (cbn [length]; lia).
    now split.
Qed.

Lemma process_edits_length (originalLines : list jsstring) (w : Working)
    (i : Z) (edits : list Edit) :
  length (snd (process_edits originalLines w i edits)) = length edits.
Proof.
  destruct (process_edits_results originalLines edits w i) as [H _].
  apply (Forall2_length H).
Qed.

Lemma iterations_app (originalLines : list jsstring) (l1 l2 : list Edit) :
  forall (w : Working) (i : Z),
    iterations originalLines w (l1 ++ l2)
    = iterations originalLines w l1
      ++ iterations originalLines
           (fst (process_edits originalLines w i l1)) l2.
Proof.
  induction l1 as [|edit rest IH]; intros w i; [reflexivity|].
  rewrite process_edits_cons. cbn [fst app iterations].
  destruct (process_edit_index originalLines w 0 i edit) as [-> _].
  now rewrite (IH _ (i + 1)).
Qed.

Lemma iterations_length (originalLines : list jsstring) (edits : list Edit) :
  forall w, length (iterations originalLines w edits) = length edits.
Proof.
  induction edits as [|e rest IH]; intros w; simpl; [reflexivity|].
  now rewrite IH.
Qed.

(** Taking a failing edit out of the array the loop runs over changes
    neither the final state, nor what the results of the other edits say,
    nor the states their iterations start from. *)
Lemma process_edits_skip_failure (originalLines : list jsstring)
    (s1 s2 : list Edit) (e : Edit) (w : Working) (i : Z) :
  let w1 := fst (process_edits originalLines w i s1) in
  success (snd (process_edit originalLines w1
                  (i + Z.of_nat (length s1)) e)) = false ->
  fst (process_edits originalLines w i (s1 ++ e :: s2))
  = fst (process_edits originalLines w i (s1 ++ s2))
  /\ map outcome (snd (process_edits originalLines w i (s1 ++ s2)))
     = without (length s1)
         (map outcome (snd (process_edits originalLines w i (s1 ++ e :: s2))))
  /\ iterations originalLines w (s1 ++ s2)
     = without (length s1) (iterations originalLines w (s1 ++ e :: s2)).
Proof.
  intros w1 Hfail.
  pose proof (process_edit_failure _ _ _ _ Hfail) as Hsame.
  destruct (process_edits_app originalLines s1 (e :: s2) w i) as [Hf1 Hs1].
  destruct (process_edits_app originalLines s1 s2 w i) as [Hf2 Hs2].
  fold w1 in Hf1, Hs1, Hf2, Hs2.
  rewrite process_edits_cons in Hf1, Hs1. cbn [fst snd] in Hf1, Hs1.
  rewrite Hsame in Hf1, Hs1.
  destruct (process_edits_index originalLines s2 w1
              (i + Z.of_nat (length s1) + 1) (i + Z.of_nat (length s1)))
    as [Hi1 Hi2].
  split; [|split].
  - rewrite Hf1, Hf2. exact Hi1.
  - rewrite Hs1, Hs2, !map_app. cbn [map]. rewrite Hi2.
    replace (length s1)
      with (length (map outcome (snd (process_edits originalLines w i s1))))
      by (rewrite length_map; apply process_edits_length).
    now rewrite without_app.
  - rewrite (iterations_app _ s1 s2 w i), (iterations_app _ s1 (e :: s2) w i).
    fold w1. cbn [iterations].
    destruct (process_edit_index originalLines w1 0
                (i + Z.of_nat (length s1)) e) as [-> _].
    rewrite Hsame.
    replace (length s1) with (length (iterations originalLines w s1))
      by apply iterations_length.
    now rewrite without_app.
Qed.

(** Taking an edit out of a sorted array that passes the overlap check
    leaves an array that passes it. *)
Lemma check_overlaps_delete (s1 s2 : list Edit) (e : Edit) :
  forall previousEnd : Z,
    Sorted (cmp_le compare_edits) (s1 ++ e :: s2) ->
    check_overlaps previousEnd (s1 ++ e :: s2) = None ->
    check_overlaps previousEnd (s1 ++ s2) = None.
Proof.
  induction s1 as [|x s1 IH]; intros p Hs; simpl.
  - destruct (line_start e <=? p) eqn:He; [discriminate|].
    apply Z.leb_gt in He.
    destruct s2 as [|t s2]; [reflexivity|]. simpl.
    destruct (line_start t <=? line_end e); [discriminate|]. intros Hrest.
    inversion Hs as [|? ? _ Hhd]; subst. inversion Hhd as [|? ? Het]; subst.
    apply compare_edits_le in Het.
    destruct (line_start t <=? p) eqn:Ht; [apply Z.leb_le in Ht; lia|].
    exact Hrest.
  - destruct (line_start x <=? p); [discriminate|].
    inversion Hs; subst. now apply IH.
Qed.

Lemma nth_error_middle {A} (l1 l2 : list A) (x : A) (n : nat) :
  length l1 = n -> nth_error (l1 ++ x :: l2) n = Some x.
Proof.
  intros <-. rewrite nth_error_app2, Nat.sub_diag by lia. reflexivity.
Qed.

(** C5. An iteration that fails leaves the working copy and the ledger as
    they were, whatever they are. So for a batch that passes the overlap
    check, and an edit [e] of it whose result (at its position [k] of the
    processing order) is a failure: the batch submitted without [e] passes
    the overlap check as well, is processed in the same order, commits the
    same text, and the other edits start from the same working states and
    get results that say the same (success, error, range and shift). *)
Theorem failing_edit_is_isolated
    (f f1 : File) (before_ after_ : list Edit) (e : Edit) (rep1 : Report) :
  multireplace_lines_in_file f (before_ ++ e :: after_) = (f1, Ok rep1) ->
  let originalLines := split_lines (content f) in
  let start := {| workingLines := originalLines; lineShifts := [] |} in
  let sorted := sort compare_edits (before_ ++ e :: after_) in
  (forall (w : Working) (i : Z),
      success (snd (process_edit originalLines w i e)) = false ->
      fst (process_edit originalLines w i e) = w)
  /\ exists k : nat,
       nth_error sorted k = Some e
       /\ sort compare_edits (before_ ++ after_) = without k sorted
       /\ forall r : EditResult,
            nth_error (results rep1) k = Some r ->
            success r = false ->
            exists rep2 : Report,
              multireplace_lines_in_file f (before_ ++ after_)
              = (f1, Ok rep2)
              /\ map outcome (results rep2)
                 = without k (map outcome (results rep1))
              /\ iterations originalLines start (without k sorted)
                 = without k (iterations originalLines start sorted).
Proof.
  intros Hcall originalLines start sorted.
  split; [intros w i; apply process_edit_failure|].
  destruct (multireplace_completed _ _ _ _ Hcall)
    as (Hcheck & Hf1 & Hres & _).
  fold originalLines start sorted in Hcheck, Hf1, Hres.
  destruct (sort_delete compare_edits compare_edits_total compare_edits_trans
              before_ after_ e) as (s1 & s2 & Hs & Hs').
  fold sorted in Hs.
  exists (length s1).
  rewrite Hs, without_app. split; [now apply nth_error_middle|].
  split; [exact Hs'|].
  intros r Hr Hfail.
  rewrite Hres, Hs in Hr.
  destruct (process_edits_app originalLines s1 (e :: s2) start 0)
    as [_ Hsnd].
  rewrite Hsnd, process_edits_cons in Hr. cbn [snd] in Hr.
  rewrite nth_error_middle in Hr by apply process_edits_length.
  injection Hr as Hr. subst r.
  destruct (process_edits_skip_failure originalLines s1 s2 e start 0 Hfail)
    as (Hfinal & Hout & Hiter).
  assert (check_overlaps (-1) (s1 ++ s2) = None) as Hcheck'.
  { apply (check_overlaps_delete s1 s2 e); [|now rewrite <- Hs].
    rewrite <- Hs. apply sort_sorted. apply compare_edits_total. }
  unfold multireplace_lines_in_file, readFileSync.
  fold originalLines start. rewrite Hs', Hcheck'.
  destruct (process_edits originalLines start 0 (s1 ++ s2)) as [w2 rs2]
    eqn:Hrun.
  eexists. split; [|split].
  - rewrite Hf1, Hs, Hfinal. reflexivity.
  - cbn [results]. rewrite Hres, Hs. exact Hout.
  - exact Hiter.
Qed.

Lemma failing_edit_is_isolated_witness :
  let wrong := {| line_start := 1; line_end := 1;
                  line_start_contents := str "Wrong content";
                  contents := str "FAILED FIRST EDIT" |} in
  let good := {| line_start := 2; line_end := 4;
                 line_start_contents := str "Line 2: Second line";
                 contents := str "SUCCESSFUL SECOND EDIT" |} in
  exists f1 rep1 rep2,
    multireplace_lines_in_file five_line_file [wrong; good] = (f1, Ok rep1)
    /\ multireplace_lines_in_file five_line_file [good] = (f1, Ok rep2)
    /\ successful rep1 = 1%nat /\ failed rep1 = 1%nat
    /\ map outcome (results rep2) = without 0 (map outcome (results rep1)).
Proof.
  intros wrong good.
  destruct (multireplace_lines_in_file five_line_file [wrong; good])
    as [f1 [rep1|err]] eqn:Hcall; [|vm_compute in Hcall; discriminate].
  destruct (failing_edit_is_isolated five_line_file f1 [] [good] wrong rep1
              Hcall) as (_ & k & Hk & _ & Hiso).
  assert (k = 0%nat) as ->.
  { destruct k as [|[|[|k]]]; vm_compute in Hk; congruence. }
  assert (exists r, nth_error (results rep1) 0 = Some r /\ success r = false
                    /\ successful rep1 = 1%nat /\ failed rep1 = 1%nat)
    as (r & Hr & Hfail & Hs & Hf).
  { vm_compute in Hcall. injection Hcall as _ <-.
    eexists. repeat split. }
  destruct (Hiso r Hr Hfail) as (rep2 & Hcall2 & Hout & _).
  exists f1, rep1, rep2. repeat split; assumption.
Defined.

(** ** Lines and the text they are joined into *)

Lemma split_lines_single (s : jsstring) : Forall single_line (split_lines s).
Proof.
  induction s as [|c s IH]; simpl.
  - repeat constructor.
  - destruct (c =? LF)%N eqn:Hc.
    + constructor; [constructor | exact IH].
    + apply N.eqb_neq in Hc.
      destruct (split_lines s) as [|l ls]; [repeat constructor; exact Hc|].
      inversion IH; subst. constructor; [|assumption].
      constructor; assumption.
Qed.

Lemma split_lines_of_single (l : jsstring) :
  single_line l -> split_lines l = [l].
Proof.
  induction 1 as [|c l Hc _ IH]; [reflexivity|].
  simpl. apply N.eqb_neq in Hc. now rewrite Hc, IH.
Qed.

Lemma split_lines_app_lf (l s : jsstring) :
  single_line l -> split_lines (l ++ LF :: s) = l :: split_lines s.
Proof.
  induction 1 as [|c l Hc _ IH]; [reflexivity|].
  cbn [app split_lines]. apply N.eqb_neq in Hc. now rewrite Hc, IH.
Qed.

(** Lines without line feeds are the lines of their join. *)
Lemma split_join_lines (lines : list jsstring) :
  lines <> [] -> Forall single_line lines ->
  split_lines (join_lines lines) = lines.
Proof.
  induction lines as [|l rest IH]; [congruence|]. intros _ Hall.
  inversion Hall as [|? ? Hl Hrest]; subst.
  destruct rest as [|l' rest]; [now apply split_lines_of_single|].
  rewrite join_lines_cons by discriminate.
  rewrite split_lines_app_lf by exact Hl.
  now rewrite IH.
Qed.

(** ** Indexing and slicing *)

Lemma index_app_l {A} (l1 l2 : list A) (i : Z) :
  0 <= i < Z.of_nat (length l1) -> index (l1 ++ l2) i = index l1 i.
Proof.
  intros H. unfold index.
  destruct (i <? 0); [reflexivity|].
  apply nth_error_app1. lia.
Qed.

Lemma index_app_r {A} (l1 l2 : list A) (i : Z) :
  0 <= i -> index (l1 ++ l2) (Z.of_nat (length l1) + i) = index l2 i.
Proof.
  intros H. unfold index.
  destruct (Z.of_nat (length l1) + i <? 0) eqn:H1;
    [apply Z.ltb_lt in H1; lia|].
  destruct (i <? 0) eqn:H2; [apply Z.ltb_lt in H2; lia|].
  rewrite nth_error_app2 by lia. f_equal. lia.
Qed.

Lemma index_skipn {A} (l : list A) (n i : Z) :
  0 <= n -> 0 <= i -> index (skipn (Z.to_nat n) l) i = index l (n + i).
Proof.
  intros Hn Hi. unfold index.
  destruct (i <? 0) eqn:H1; [apply Z.ltb_lt in H1; lia|].
  destruct (n + i <? 0) eqn:H2; [apply Z.ltb_lt in H2; lia|].
  rewrite nth_error_skipn. f_equal. lia.
Qed.

Lemma index_firstn {A} (l : list A) (n i : Z) :
  0 <= i < n -> index (firstn (Z.to_nat n) l) i = index l i.
Proof.
  intros H. unfold index.
  destruct (i <? 0) eqn:Hi; [reflexivity|]. apply Z.ltb_ge in Hi.
  rewrite nth_error_firstn.
  destruct (Z.to_nat i <? Z.to_nat n)%nat eqn:Hlt; [reflexivity|].
  apply Nat.ltb_ge in Hlt. lia.
Qed.

(** [arr.slice(0, k)] for an index inside the array. *)
Lemma slice_prefix {A} (arr : list A) (k : Z) :
  0 <= k <= Z.of_nat (length arr) ->
  slice arr 0 k = firstn (Z.to_nat k) arr.
Proof.
  intros H. unfold slice, relative_index. simpl (0 <? 0).
  destruct (k <? 0) eqn:Hk; [apply Z.ltb_lt in Hk; lia|].
  rewrite !Z.min_l by lia.
  simpl. now rewrite Z.sub_0_r.
Qed.

(** [arr.slice(k)] for an index inside the array. *)
Lemma slice_from_suffix {A} (arr : list A) (k : Z) :
  0 <= k <= Z.of_nat (length arr) ->
  slice_from arr k = skipn (Z.to_nat k) arr.
Proof.
  intros H. unfold slice_from, slice, relative_index.
  destruct (k <? 0) eqn:Hk; [apply Z.ltb_lt in Hk; lia|].
  destruct (Z.of_nat (length arr) <? 0) eqn:Hl;
    [apply Z.ltb_lt in Hl; lia|].
  rewrite Z.min_id, Z.min_l by lia.
  apply firstn_all2. rewrite length_skipn. lia.
Qed.

(** ** A run in which every edit is applied *)

Lemma accumulated_shift_app (l1 l2 : list LineShift) (line : Z) :
  accumulated_shift (l1 ++ l2) line
  = accumulated_shift l1 line + accumulated_shift l2 line.
Proof. induction l1 as [|s l1 IH]; simpl; [reflexivity|]. rewrite IH. lia. Qed.

(** An iteration that succeeds passed the checks against the original. *)
Lemma try_edit_Ok_checks (originalLines : list jsstring) (w w' : Working)
    (edit : Edit) (shift : Z) :
  try_edit originalLines w edit = Ok (w', shift) ->
  passes_original_checks originalLines edit.
Proof.
  unfold try_edit, passes_original_checks.
  destruct (line_start edit >? _) eqn:H1; [discriminate|].
  destruct (line_end edit >? _) eqn:H2; [discriminate|].
  destruct (line_start edit >? line_end edit) eqn:H3; [discriminate|].
  destruct (index originalLines (line_start edit - 1)) as [l|] eqn:Hi;
    [|discriminate].
  destruct (strict_eqb l (line_start_contents edit)) eqn:He;
    [|discriminate].
  apply strict_eqb_eq in He. subst l. intros _.
  pose proof (Zgt_cases (line_start edit) (Z.of_nat (length originalLines))).
  pose proof (Zgt_cases (line_end edit) (Z.of_nat (length originalLines))).
  pose proof (Zgt_cases (line_start edit) (line_end edit)).
  rewrite H1 in *. rewrite H2 in *. rewrite H3 in *. auto.
Qed.

(** The iteration of an edit that starts after [done] and passes the
    checks against the original: the edit is applied at its translated
    place, nothing is clamped, and the state is the one for [line_end]. *)
Lemma try_edit_applied (originalLines : list jsstring) (w : Working)
    (done shifted : Z) (pre : list jsstring) (edit : Edit) :
  applied_through originalLines w done shifted pre ->
  done < line_start edit ->
  passes_original_checks originalLines edit ->
  exists w',
    try_edit originalLines w edit = Ok (w', edit_shift edit)
    /\ applied_through originalLines w' (line_end edit)
         (shifted + edit_shift edit)
         (pre
          ++ firstn (Z.to_nat (line_start edit - 1 - done))
               (skipn (Z.to_nat done) originalLines)
          ++ split_lines (contents edit)).
Proof.
  intros [Hlines Hlen Hdone Hsum] Hstart Hchecks.
  pose proof Hchecks as (Hs & He & Hr & _).
  set (L := Z.of_nat (length originalLines)) in *.
  assert (Z.of_nat (length (workingLines w)) = L + shifted) as Hwlen.
  { rewrite Hlines, length_app, length_skipn. fold L. unfold L in *. lia. }
  assert (currentStartIndex w edit = line_start edit - 1 + shifted) as Hcs.
  { unfold currentStartIndex. rewrite adjustment_accumulated.
    now rewrite Hsum by lia. }
  assert (currentEndIndex w edit = line_end edit - 1 + shifted) as Hce.
  { unfold currentEndIndex, translatedEndIndex.
    rewrite adjustment_accumulated, Hsum, Hwlen by lia.
    destruct (line_end edit - 1 + shifted >=? L + shifted) eqn:Hge;
      [apply Z.geb_le in Hge; lia | reflexivity]. }
  rewrite (try_edit_after_checks _ _ _ Hchecks), Hcs, Hce, Hwlen.
  destruct (line_start edit - 1 + shifted >=? L + shifted) eqn:Hge;
    [apply Z.geb_le in Hge; lia|].
  eexists. split; [reflexivity|].
  rewrite slice_prefix by lia.
  rewrite slice_from_suffix by lia.
  constructor; cbn [workingLines lineShifts].
  - rewrite Hlines.
    replace (Z.to_nat (line_start edit - 1 + shifted))
      with (length pre + Z.to_nat (line_start edit - 1 - done))%nat by lia.
    rewrite firstn_app_2.
    replace (Z.to_nat (line_end edit - 1 + shifted + 1))
      with (length pre + Z.to_nat (line_end edit - done))%nat by lia.
    rewrite skipn_app. rewrite (@skipn_all2 _ _ pre) by lia.
    replace (length pre + Z.to_nat (line_end edit - done) - length pre)%nat
      with (Z.to_nat (line_end edit - done)) by lia.
    rewrite skipn_skipn.
    replace (Z.to_nat (line_end edit - done) + Z.to_nat done)%nat
      with (Z.to_nat (line_end edit)) by lia.
    simpl. now rewrite <- !app_assoc.
  - rewrite !length_app, length_firstn, length_skipn.
    unfold edit_shift. fold L. unfold L in *. lia.
  - fold L. lia.
  - intros line Hline. rewrite accumulated_shift_app, Hsum by lia.
    simpl. destruct (line_start edit <=? line) eqn:Hle;
      [lia | apply Z.leb_gt in Hle; lia].
Qed.

(** When every iteration succeeds, the loop builds [replaced_lines]; every
    edit passed the checks against the original, and the shift reported
    for it is its [edit_shift]. *)
Lemma process_edits_all_applied (originalLines : list jsstring)
    (edits : list Edit) :
  forall (w : Working) (done shifted : Z) (pre : list jsstring) (i : Z),
    applied_through originalLines w done shifted pre ->
    check_overlaps done edits = None ->
    filter (fun r => negb (success r))
      (snd (process_edits originalLines w i edits)) = [] ->
    workingLines (fst (process_edits originalLines w i edits))
    = pre ++ replaced_lines originalLines done edits
    /\ Forall (passes_original_checks originalLines) edits
    /\ map r_shift (snd (process_edits originalLines w i edits))
       = map (fun e => Some (edit_shift e)) edits.
Proof.
  induction edits as [|edit rest IH]; intros w done shifted pre i Hinv Hchk Hall.
  - simpl. destruct Hinv as [Hlines _ _ _]. auto.
  - simpl in Hchk.
    destruct (line_start edit <=? done) eqn:Hstart; [discriminate|].
    apply Z.leb_gt in Hstart.
    rewrite process_edits_cons in *. cbn [fst snd filter map] in *.
    destruct (success (snd (process_edit originalLines w i edit))) eqn:Hs;
      [|discriminate].
    simpl in Hall.
    destruct (process_edit_success _ _ _ _ Hs) as (w' & Htry & Hstep).
    pose proof (try_edit_Ok_checks _ _ _ _ _ Htry) as Hchecks.
    destruct (try_edit_applied _ _ _ _ _ _ Hinv Hstart Hchecks)
      as (w'' & Htry' & Hinv').
    assert (w'' = w') as -> by congruence.
    rewrite Hstep in *. cbn [fst snd r_shift] in *.
    destruct (IH _ _ _ _ (i + 1) Hinv' Hchk Hall) as (Hfinal & Hrest & Hshifts).
    split; [|split].
    + rewrite Hfinal. cbn [replaced_lines]. now rewrite <- !app_assoc.
    + now constructor.
    + now rewrite Hshifts.
Qed.

Lemma replaced_lines_length (originalLines : list jsstring)
    (edits : list Edit) :
  forall done : Z,
    0 <= done <= Z.of_nat (length originalLines) ->
    check_overlaps done edits = None ->
    Forall (passes_original_checks originalLines) edits ->
    Z.of_nat (length (replaced_lines originalLines done edits))
    = Z.of_nat (length originalLines) - done + total_shift edits.
Proof.
  induction edits as [|edit rest IH]; intros done Hdone Hchk Hall; simpl.
  - rewrite length_skipn. lia.
  - simpl in Hchk.
    destruct (line_start edit <=? done) eqn:Hstart; [discriminate|].
    apply Z.leb_gt in Hstart.
    inversion Hall as [|? ? (Hs & He & Hr & _) Hrest]; subst.
    rewrite !length_app, length_firstn, length_skipn.
    rewrite Nat2Z.inj_add, Nat2Z.inj_add, (IH (line_end edit)) by (auto; lia).
    unfold edit_shift. lia.
Qed.

(** No edit of an array that passes the overlap check from [previousEnd]
    on ends before a line at or before [previousEnd + 1]. *)
Lemma shift_before_none (originalLines : list jsstring) (edits : list Edit)
    (line : Z) :
  forall previousEnd : Z,
    line <= previousEnd + 1 ->
    check_overlaps previousEnd edits = None ->
    Forall (passes_original_checks originalLines) edits ->
    shift_before edits line = 0.
Proof.
  induction edits as [|edit rest IH]; intros p Hline Hchk Hall;
    [reflexivity|].
  simpl in *.
  destruct (line_start edit <=? p) eqn:Hstart; [discriminate|].
  apply Z.leb_gt in Hstart.
  inversion Hall as [|? ? (Hs & He & Hr & _) Hrest]; subst.
  destruct (line_end edit <? line) eqn:Hend; [apply Z.ltb_lt in Hend; lia|].
  rewrite (IH (line_end edit)); auto; lia.
Qed.

(** An original line outside the edited ranges is found in
    [replaced_lines], moved by the shifts of the edits that end before it. *)
Lemma replaced_lines_index (originalLines : list jsstring)
    (edits : list Edit) (line : Z) :
  forall done : Z,
    0 <= done <= Z.of_nat (length originalLines) ->
    check_overlaps done edits = None ->
    Forall (passes_original_checks originalLines) edits ->
    done < line <= Z.of_nat (length originalLines) ->
    (forall edit, In edit edits -> ~ in_range line edit) ->
    index (replaced_lines originalLines done edits)
      (line - 1 - done + shift_before edits line)
    = index originalLines (line - 1).
Proof.
  induction edits as [|edit rest IH]; intros done Hdone Hchk Hall Hline Hout.
  - simpl. rewrite Z.add_0_r, index_skipn by lia. f_equal. lia.
  - simpl in Hchk.
    destruct (line_start edit <=? done) eqn:Hstart; [discriminate|].
    apply Z.leb_gt in Hstart.
    inversion Hall as [|? ? (Hs & He & Hr & _) Hrest]; subst.
    assert (~ in_range line edit) as Hedit by (apply Hout; now left).
    unfold in_range in Hedit.
    cbn [replaced_lines shift_before].
    set (A := firstn (Z.to_nat (line_start edit - 1 - done))
                (skipn (Z.to_nat done) originalLines)).
    assert (Z.of_nat (length A) = line_start edit - 1 - done) as HA.
    { unfold A. rewrite length_firstn, length_skipn. lia. }
    destruct (Z.lt_ge_cases line (line_start edit)) as [Hlt|Hge].
    + destruct (line_end edit <? line) eqn:Hend;
        [apply Z.ltb_lt in Hend; lia|].
      rewrite (shift_before_none originalLines rest line (line_end edit))
        by (auto; lia).
      rewrite index_app_l by lia.
      unfold A. rewrite index_firstn, index_skipn by lia. f_equal. lia.
    + assert (line_end edit < line) as Hgt by lia.
      apply Z.ltb_lt in Hgt. rewrite Hgt. apply Z.ltb_lt in Hgt.
      assert (index (replaced_lines originalLines (line_end edit) rest)
                (line - 1 - line_end edit + shift_before rest line)
              = index originalLines (line - 1)) as Hrec.
      { apply IH; auto; try lia. intros e He'. apply Hout. now right. }
      destruct (index_in_range originalLines (line - 1)) as [x Hx]; [lia|].
      rewrite Hx in Hrec. pose proof (index_Some_range _ _ _ Hrec) as Hk.
      rewrite Hx, <- Hrec.
      replace (line - 1 - done + (edit_shift edit + shift_before rest line))
        with (Z.of_nat (length A)
              + (Z.of_nat (length (split_lines (contents edit)))
                 + (line - 1 - line_end edit + shift_before rest line)))
        by (unfold edit_shift; lia).
      rewrite index_app_r by lia. now rewrite index_app_r by lia.
Qed.

Lemma Forall_skipn {A} (P : A -> Prop) (n : nat) (l : list A) :
  Forall P l -> Forall P (skipn n l).
Proof.
  revert l. induction n as [|n IH]; intros l H; [exact H|].
  destruct l; [constructor|]. inversion H; subst. now apply IH.
Qed.

Lemma Forall_firstn {A} (P : A -> Prop) (n : nat) (l : list A) :
  Forall P l -> Forall P (firstn n l).
Proof.
  revert l. induction n as [|n IH]; intros l H; [constructor|].
  destruct l; [constructor|]. inversion H; subst.
  constructor; [assumption | now apply IH].
Qed.

Lemma replaced_lines_single (originalLines : list jsstring)
    (edits : list Edit) :
  Forall single_line originalLines ->
  forall done : Z,
    Forall single_line (replaced_lines originalLines done edits).
Proof.
  intros Ho. induction edits as [|edit rest IH]; intros done; simpl.
  - now apply Forall_skipn.
  - apply Forall_app. split; [|apply Forall_app; split].
    + now apply Forall_firstn, Forall_skipn.
    + apply split_lines_single.
    + apply IH.
Qed.

Lemma replaced_lines_nonempty (originalLines : list jsstring)
    (edits : list Edit) :
  originalLines <> [] -> replaced_lines originalLines 0 edits <> [].
Proof.
  destruct edits as [|edit rest]; simpl; [trivial|]. intros _ H.
  apply app_eq_nil in H. destruct H as [_ H].
  apply app_eq_nil in H. destruct H as [H _].
  now apply split_lines_nonempty in H.
Qed.

Lemma shift_sums_perm (l l' : list Edit) (line : Z) :
  Permutation l l' ->
  total_shift l = total_shift l'
  /\ shift_before l line = shift_before l' line.
Proof.
  induction 1 as [|x l l' _ [IH1 IH2]|x y l
                  |l l' l'' _ [IH1 IH2] _ [IH3 IH4]]; simpl; split; lia.
Qed.

(** The overlap check starts from [previousEnd = -1], one less than the
    specification's 0; an edit of line 0 would pass it, but cannot
    succeed. *)
Lemma check_overlaps_from_zero (originalLines : list jsstring) (w : Working)
    (i : Z) (edits : list Edit) :
  filter (fun r => negb (success r))
    (snd (process_edits originalLines w i edits)) = [] ->
  check_overlaps (-1) edits = None ->
  check_overlaps 0 edits = None.
Proof.
  destruct edits as [|e rest]; [reflexivity|].
  rewrite process_edits_cons. cbn [snd filter check_overlaps].
  destruct (success (snd (process_edit originalLines w i e))) eqn:Hs;
    [|discriminate].
  intros _.
  destruct (process_edit_success _ _ _ _ Hs) as (w' & Htry & _).
  destruct (try_edit_Ok_checks _ _ _ _ _ Htry) as (_ & _ & _ & Hi).
  apply index_Some_range in Hi.
  destruct (line_start e <=? -1); [discriminate|].
  destruct (line_start e <=? 0) eqn:H0; [apply Z.leb_le in H0; lia|].
  trivial.
Qed.

(** C4. For a batch that passes the overlap check and in which every edit
    succeeds, on a file of [L] lines: each edit reports as its shift the
    number of lines of its contents minus [line_end - line_start + 1]; the
    committed text has [L] plus the sum of these shifts lines; and every
    original line that is in no edited range is found unchanged in the
    committed text, at its position moved by the shifts of the edits that
    end before it. *)
Theorem shift_correctness
    (f f' : File) (edits : list Edit) (report : Report) :
  multireplace_lines_in_file f edits = (f', Ok report) ->
  failed report = 0%nat ->
  let originalLines := split_lines (content f) in
  let committed := split_lines (content f') in
  map r_shift (results report)
  = map (fun e => Some (edit_shift e)) (sort compare_edits edits)
  /\ Z.of_nat (length committed)
     = Z.of_nat (length originalLines) + total_shift edits
  /\ forall line : Z,
       1 <= line <= Z.of_nat (length originalLines) ->
       (forall edit, In edit edits -> ~ in_range line edit) ->
       index committed (line - 1 + shift_before edits line)
       = index originalLines (line - 1).
Proof.
  intros Hcall Hfailed originalLines committed.
  destruct (multireplace_completed _ _ _ _ Hcall)
    as (Hchk & Hf' & Hres & _ & _ & Hfail).
  fold originalLines in Hf', Hres, Hfail.
  rewrite Hfail in Hfailed. apply length_zero_iff_nil in Hfailed.
  set (sorted := sort compare_edits edits) in *.
  set (start := {| workingLines := originalLines; lineShifts := [] |}) in *.
  assert (applied_through originalLines start 0 0 []) as Hinv.
  { constructor; simpl; auto; lia. }
  pose proof (check_overlaps_from_zero _ _ _ _ Hfailed Hchk) as Hchk0.
  destruct (process_edits_all_applied originalLines sorted start 0 0 [] 0
              Hinv Hchk0 Hfailed) as (Hfinal & Hall & Hshifts).
  simpl in Hfinal.
  assert (Permutation sorted edits) as Hperm by apply sort_perm.
  assert (originalLines <> []) as Hne by apply split_lines_nonempty.
  assert (committed = replaced_lines originalLines 0 sorted) as Hcommitted.
  { unfold committed. rewrite Hf'. cbn [content writeFileSync].
    rewrite Hfinal. apply split_join_lines.
    - now apply replaced_lines_nonempty.
    - apply replaced_lines_single, split_lines_single. }
  split; [now rewrite Hres|]. split.
  - rewrite Hcommitted, replaced_lines_length by (auto; lia).
    destruct (shift_sums_perm sorted edits 0 Hperm) as [-> _]. lia.
  - intros line Hline Hout.
    destruct (shift_sums_perm sorted edits line Hperm) as [_ <-].
    rewrite Hcommitted.
    replace (line - 1 + shift_before sorted line)
      with (line - 1 - 0 + shift_before sorted line) by lia.
    apply replaced_lines_index; auto; try lia.
    intros e He. apply Hout. eapply Permutation_in; eauto.
Qed.

Lemma shift_correctness_witness :
  let shrink := {| line_start := 2; line_end := 3;
                   line_start_contents := str "2"; contents := str "X" |} in
  let grow := {| line_start := 5; line_end := 6;
                 line_start_contents := str "5";
                 contents := str "P" ++ LF :: str "Q" ++ LF :: str "R" |} in
  exists f' report,
    multireplace_lines_in_file seven_line_file [grow; shrink]
    = (f', Ok report)
    /\ Z.of_nat (length (split_lines (content f')))
       = 7 + total_shift [grow; shrink]
    /\ index (split_lines (content f')) (4 - 1 + shift_before [grow; shrink] 4)
       = Some (str "4")
    /\ index (split_lines (content f')) (7 - 1 + shift_before [grow; shrink] 7)
       = Some (str "7").
Proof.
  intros shrink grow. do 2 eexists. split; [reflexivity|].
  match goal with
  | |- context [content ?f'] =>
      match goal with
      | |- context [total_shift ?edits] =>
          destruct (shift_correctness seven_line_file f' edits _
                      eq_refl eq_refl) as (_ & Hlen & Hidx)
      end
  end.
  split; [exact Hlen|].
  split.
  - rewrite (Hidx 4); [reflexivity | simpl; lia |].
    intros e [<-|[<-|[]]]; unfold in_range; simpl; lia.
  - rewrite (Hidx 7); [reflexivity | simpl; lia |].
    intros e [<-|[<-|[]]]; unfold in_range; simpl; lia.
Defined.

(** ** The re-validation inside a batch *)

Lemma translated_indices (originalLines : list jsstring) (w : Working)
    (done shifted : Z) (pre : list jsstring) (edit : Edit) :
  applied_through originalLines w done shifted pre ->
  done < line_start edit ->
  currentStartIndex w edit = line_start edit - 1 + shifted
  /\ translatedEndIndex w edit = line_end edit - 1 + shifted
  /\ Z.of_nat (length (workingLines w))
     = Z.of_nat (length originalLines) + shifted.
Proof.
  intros [Hlines Hlen Hdone Hsum] Hstart.
  unfold currentStartIndex, translatedEndIndex.
  rewrite adjustment_accumulated, Hsum by lia.
  repeat split.
  rewrite Hlines, length_app, length_skipn. lia.
Qed.

(** In a sorted array that passes the overlap check, every edit after the
    first starts after the end of the first. *)
Lemma sorted_after_first (edit : Edit) (rest : list Edit) :
  StronglySorted (cmp_le compare_edits) (edit :: rest) ->
  check_overlaps (line_end edit) rest = None ->
  Forall (fun x => line_end edit < line_start x) rest.
Proof.
  intros Hs Hchk. destruct rest as [|y rest]; [constructor|].
  simpl in Hchk.
  destruct (line_start y <=? line_end edit) eqn:Hy; [discriminate|].
  apply Z.leb_gt in Hy.
  inversion Hs as [|? ? Hs' _]; subst.
  inversion Hs' as [|? ? _ Hall]; subst.
  constructor; [exact Hy|].
  eapply Forall_impl; [|exact Hall].
  intros x Hx. apply compare_edits_le in Hx. lia.
Qed.

(** Along the loop over a sorted array that passes the overlap check, an
    edit that passes the checks against the original always finds its
    translated range inside the working copy. *)
Lemma process_edits_translated_inside (originalLines : list jsstring)
    (edits : list Edit) :
  forall (w : Working) (done shifted previousEnd : Z) (pre : list jsstring),
    StronglySorted (cmp_le compare_edits) edits ->
    check_overlaps previousEnd edits = None ->
    applied_through originalLines w done shifted pre ->
    Forall (fun e => passes_original_checks originalLines e ->
                     done < line_start e) edits ->
    Forall (fun it => passes_original_checks originalLines (snd it) ->
                      translated_inside (fst it) (snd it))
      (iterations originalLines w edits).
Proof.
  induction edits as [|edit rest IH];
    intros w done shifted p pre Hsorted Hchk Hinv Hafter; [constructor|].
  simpl in Hchk. destruct (line_start edit <=? p); [discriminate|].
  inversion Hafter as [|? ? Hedit Hrest]; subst.
  inversion Hsorted as [|? ? Hsorted' _]; subst.
  cbn [iterations]. constructor.
  - cbn [fst snd]. intros Hchecks. unfold translated_inside.
    destruct (translated_indices _ _ _ _ _ edit Hinv (Hedit Hchecks))
      as (-> & -> & ->).
    destruct Hchecks as (Hs & He & _). lia.
  - unfold process_edit.
    destruct (try_edit originalLines w edit) as [[w' shift]|err] eqn:Htry;
      cbn [fst].
    + pose proof (try_edit_Ok_checks _ _ _ _ _ Htry) as Hchecks.
      destruct (try_edit_applied _ _ _ _ _ _ Hinv (Hedit Hchecks) Hchecks)
        as (w'' & Htry' & Hinv').
      assert (w'' = w') as -> by congruence.
      eapply IH; eauto.
      eapply Forall_impl; [|apply (sorted_after_first edit rest); auto].
      auto.
    + eapply IH; eauto.
Qed.

(** In the tool the re-validation never fires: no edit that passes the
    checks against the original has its translated start or end past the
    working copy. *)
Lemma multireplace_translated_inside (f : File) (edits : list Edit) :
  let originalLines := split_lines (content f) in
  check_overlaps (-1) (sort compare_edits edits) = None ->
  Forall (fun it => passes_original_checks originalLines (snd it) ->
                    translated_inside (fst it) (snd it))
    (iterations originalLines
       {| workingLines := originalLines; lineShifts := [] |}
       (sort compare_edits edits)).
Proof.
  intros originalLines Hchk.
  apply (process_edits_translated_inside originalLines _ _ 0 0 (-1) []).
  - apply sorted_edits.
  - exact Hchk.
  - constructor; simpl; auto; lia.
  - apply Forall_forall. intros e _ (_ & _ & _ & Hi).
    apply index_Some_range in Hi. lia.
Qed.

(** * Further properties of the tools *)

(** ** normalizeContent *)

Lemma trimStart_head (s : jsstring) :
  match trimStart s with
  | [] => True
  | c :: _ => is_space c = false
  end.
Proof.
  induction s as [|c s IH]; simpl; [exact I|].
  destruct (is_space c) eqn:Hc; [exact IH | exact Hc].
Qed.

Lemma trimStart_blank_app (w t : jsstring) :
  blank w -> trimStart (w ++ t) = trimStart t.
Proof.
  induction 1 as [|c w Hc _ IH]; [reflexivity|]. simpl. now rewrite Hc.
Qed.

Lemma trimStart_blank (w : jsstring) : blank w -> trimStart w = [].
Proof.
  intros H. rewrite <- (app_nil_r w). now rewrite trimStart_blank_app.
Qed.

Lemma trimStart_nil_blank (s : jsstring) : trimStart s = [] -> blank s.
Proof.
  induction s as [|c s IH]; simpl; [constructor|].
  destruct (is_space c) eqn:Hc; [|discriminate].
  intros H. constructor; [exact Hc | now apply IH].
Qed.

Lemma trimStart_app (s t : jsstring) :
  trimStart s <> [] -> trimStart (s ++ t) = trimStart s ++ t.
Proof.
  induction s as [|c s IH]; simpl; [congruence|].
  destruct (is_space c); [exact IH | reflexivity].
Qed.

Lemma trimStart_snoc (x : jsstring) (c : char16) :
  trimStart (x ++ [c])
  = match trimStart x with
    | [] => if is_space c then [] else [c]
    | _ :: _ => trimStart x ++ [c]
    end.
Proof.
  induction x as [|a x IH]; simpl; [reflexivity|].
  destruct (is_space a); [exact IH | reflexivity].
Qed.

(** [trimEnd], one character at a time. *)
Lemma trimEnd_cons (c : char16) (u : jsstring) :
  trimEnd (c :: u)
  = match trimEnd u with
    | [] => if is_space c then [] else [c]
    | _ :: _ => c :: trimEnd u
    end.
Proof.
  unfold trimEnd. simpl rev. rewrite trimStart_snoc.
  destruct (trimStart (rev u)) as [|a T] eqn:HT.
  - simpl. now destruct (is_space c).
  - rewrite rev_app_distr. simpl rev at 1. cbn [app].
    destruct (rev (a :: T)) eqn:Hr; [|reflexivity].
    apply (f_equal (@length _)) in Hr. rewrite length_rev in Hr.
    discriminate.
Qed.

(** The trim at the end and the replacement of the runs, in one pass. *)
Lemma single_spaced_trimEnd (u : jsstring) :
  single_spaced true u
  = match trimEnd u with
    | [] => []
    | _ :: _ => SPACE :: replace_spaces true (trimEnd u)
    end
  /\ single_spaced false u = replace_spaces false (trimEnd u).
Proof.
  induction u as [|c u [IHt IHf]]; [split; reflexivity|].
  rewrite trimEnd_cons. cbn [single_spaced].
  destruct (is_space c) eqn:Hc.
  - rewrite IHt. destruct (trimEnd u) as [|a T]; [split; reflexivity|].
    cbn [replace_spaces]. rewrite Hc. split; reflexivity.
  - rewrite IHf. destruct (trimEnd u) as [|a T].
    + cbn [replace_spaces]. rewrite Hc. split; reflexivity.
    + cbn [replace_spaces]. rewrite Hc. split; reflexivity.
Qed.

Lemma normalizeContent_single_spaced (s : jsstring) :
  normalizeContent s = single_spaced false (trimStart s).
Proof.
  unfold normalizeContent, trim.
  now destruct (single_spaced_trimEnd (trimStart s)) as [_ ->].
Qed.

Lemma single_spaced_again (t : jsstring) :
  forall p, single_spaced false (single_spaced p t) = single_spaced p t.
Proof.
  induction t as [|c t IH]; intros p; [reflexivity|].
  cbn [single_spaced]. destruct (is_space c) eqn:Hc; [apply IH|].
  destruct p; cbn [single_spaced].
  - assert (is_space SPACE = true) as -> by reflexivity.
    cbn [single_spaced]. now rewrite Hc, IH.
  - now rewrite Hc, IH.
Qed.

Lemma single_spaced_blank (w t : jsstring) :
  blank w -> forall p,
    single_spaced p (w ++ t)
    = match w with [] => single_spaced p t | _ :: _ => single_spaced true t end.
Proof.
  induction 1 as [|c w Hc Hw IH]; intros p; [reflexivity|].
  cbn [app single_spaced]. rewrite Hc, IH. now destruct w.
Qed.

Lemma single_spaced_blank_end (s w : jsstring) :
  blank w -> forall p, single_spaced p (s ++ w) = single_spaced p s.
Proof.
  intros Hw. induction s as [|c s IH]; intros p.
  - simpl. induction Hw as [|a w Ha _ IHw] in p |- *; [reflexivity|].
    simpl. rewrite Ha. apply IHw.
  - cbn [app single_spaced]. now rewrite !IH.
Qed.

Lemma single_spaced_app_congr (t x y : jsstring) :
  (forall p, single_spaced p x = single_spaced p y) ->
  forall p, single_spaced p (t ++ x) = single_spaced p (t ++ y).
Proof.
  intros H. induction t as [|c t IH]; intros p; [apply H|].
  cbn [app single_spaced]. now rewrite !IH.
Qed.

(** In the output of the pass every white-space character is a space
    that stands before a character that is not white space. *)
Lemma single_spaced_spaces (t : jsstring) :
  forall (p : bool) (a b : jsstring) (c : char16),
    single_spaced p t = a ++ c :: b ->
    is_space c = true ->
    c = SPACE /\ exists d b', b = d :: b' /\ is_space d = false.
Proof.
  induction t as [|c0 t IH]; intros p a b c Heq Hc.
  - destruct a; discriminate.
  - cbn [single_spaced] in Heq. destruct (is_space c0) eqn:H0; [eauto|].
    destruct p.
    + destruct a as [|x a]; [injection Heq as <- <-; eauto|].
      injection Heq as <- Heq.
      destruct a as [|y a]; [injection Heq as <- _; congruence|].
      injection Heq as <- Heq. eauto.
    + destruct a as [|x a]; [injection Heq as <- _; congruence|].
      injection Heq as <- Heq. eauto.
Qed.

Lemma normalizeContent_head (s : jsstring) :
  match normalizeContent s with
  | [] => True
  | c :: _ => is_space c = false
  end.
Proof.
  rewrite normalizeContent_single_spaced.
  pose proof (trimStart_head s) as H.
  destruct (trimStart s) as [|c t]; [exact I|].
  cbn [single_spaced]. now rewrite H.
Qed.

Lemma single_spaced_trimStart_around (w s w' : jsstring) :
  blank w -> blank w' ->
  single_spaced false (trimStart (w ++ s ++ w'))
  = single_spaced false (trimStart s).
Proof.
  intros Hw Hw'. rewrite trimStart_blank_app by exact Hw.
  destruct (trimStart s) as [|c t] eqn:Hs.
  - apply trimStart_nil_blank in Hs.
    rewrite trimStart_blank; [reflexivity|].
    apply Forall_app. now split.
  - rewrite trimStart_app by congruence. rewrite Hs.
    now apply single_spaced_blank_end.
Qed.

(** X1. Normalizing a normalized text changes nothing. *)
Theorem normalizeContent_idempotent (s : jsstring) :
  normalizeContent (normalizeContent s) = normalizeContent s.
Proof.
  pose proof (normalizeContent_head s) as Hhead.
  rewrite (normalizeContent_single_spaced (normalizeContent s)).
  destruct (normalizeContent s) as [|c r] eqn:Hr; [reflexivity|].
  cbn [trimStart]. rewrite Hhead. rewrite <- Hr.
  rewrite normalizeContent_single_spaced. apply single_spaced_again.
Qed.

(** X2. Every white-space character of a normalized text is a space
    (U+0020) that has a character before it and a character that is not
    white space right after it: the text neither starts nor ends with
    white space, holds no tab or line break, and no two spaces in a row. *)
Theorem normalizeContent_only_single_spaces
    (s a b : jsstring) (c : char16) :
  normalizeContent s = a ++ c :: b ->
  is_space c = true ->
  c = SPACE /\ a <> []
  /\ exists d b', b = d :: b' /\ is_space d = false.
Proof.
  intros Heq Hc.
  pose proof (normalizeContent_head s) as Hhead.
  rewrite normalizeContent_single_spaced in Heq.
  destruct (single_spaced_spaces _ _ _ _ _ Heq Hc) as [-> Hnext].
  split; [reflexivity|]. split; [|exact Hnext].
  intros ->. rewrite normalizeContent_single_spaced, Heq in Hhead.
  simpl in Hhead. congruence.
Qed.

Lemma normalizeContent_only_single_spaces_witness :
  SPACE = SPACE /\ str "hello" <> []
  /\ exists d b', str "world" = d :: b' /\ is_space d = false.
Proof.
  apply (normalizeContent_only_single_spaces
           (9%N :: str "  hello" ++ [10; 32; 9]%N ++ str "world  ")
           (str "hello") (str "world") SPACE);
    reflexivity.
Defined.

(** X3. The normalized text does not depend on how long a run of white
    space is, nor on which white-space characters it is made of. *)
Theorem normalizeContent_run_lengths (a b w1 w2 : jsstring) :
  blank w1 -> blank w2 -> w1 <> [] -> w2 <> [] ->
  normalizeContent (a ++ w1 ++ b) = normalizeContent (a ++ w2 ++ b).
Proof.
  intros H1 H2 Hn1 Hn2. rewrite !normalizeContent_single_spaced.
  assert (forall p, single_spaced p (w1 ++ b) = single_spaced p (w2 ++ b))
    as Hruns.
  { intros p. rewrite !single_spaced_blank by assumption.
    destruct w1; [congruence|]. destruct w2; [congruence|]. reflexivity. }
  destruct (trimStart a) as [|c t] eqn:Ha.
  - apply trimStart_nil_blank in Ha.
    rewrite !app_assoc.
    rewrite !trimStart_blank_app by (apply Forall_app; now split).
    reflexivity.
  - rewrite !trimStart_app by congruence.
    now apply single_spaced_app_congr.
Qed.

Lemma normalizeContent_run_lengths_witness :
  normalizeContent (str "Line 1:" ++ str " " ++ str "First")
  = normalizeContent (str "Line 1:" ++ [32; 9; 32]%N ++ str "First").
Proof.
  apply normalizeContent_run_lengths;
    try (repeat constructor); discriminate.
Defined.

(** X4. White space before and after a text does not count. *)
Theorem normalizeContent_outer_blank (w s w' : jsstring) :
  blank w -> blank w' ->
  normalizeContent (w ++ s ++ w') = normalizeContent s.
Proof.
  intros Hw Hw'. rewrite !normalizeContent_single_spaced.
  now apply single_spaced_trimStart_around.
Qed.

Lemma normalizeContent_outer_blank_witness :
  normalizeContent (str "  " ++ str "a b" ++ [9; 10]%N)
  = normalizeContent (str "a b").
Proof.
  apply normalizeContent_outer_blank; repeat constructor.
Defined.

(** ** verifyLineContent *)

(** X5. A line of the file is verified by its own text, also when white
    space is put before and after it; the call returns the line as the
    file holds it. *)
Theorem verifyLineContent_accepts_the_line
    (f : File) (lineNumber : Z) (line w w' : jsstring) :
  index (split_lines (content f)) (lineNumber - 1) = Some line ->
  blank w -> blank w' ->
  verifyLineContent f lineNumber (w ++ line ++ w') = Ok line.
Proof.
  intros Hi Hw Hw'. pose proof (index_Some_range _ _ _ Hi) as Hr.
  unfold verifyLineContent, readFileSync.
  destruct (lineNumber <? 1) eqn:H1; [apply Z.ltb_lt in H1; lia|].
  destruct (lineNumber >? _) eqn:H2; [apply Z.gtb_lt in H2; lia|].
  cbn [orb]. rewrite Hi.
  change (replace_spaces false (trim line)) with (normalizeContent line).
  change (replace_spaces false (trim (w ++ line ++ w')))
    with (normalizeContent (w ++ line ++ w')).
  rewrite !normalizeContent_single_spaced.
  rewrite single_spaced_trimStart_around by assumption.
  assert (strict_eqb (single_spaced false (trimStart line))
            (single_spaced false (trimStart line)) = true) as ->
      by now apply strict_eqb_eq.
  reflexivity.
Qed.

Lemma verifyLineContent_accepts_the_line_witness :
  verifyLineContent five_line_file 2
    (str "    " ++ str "Line 2: Second line" ++ [9]%N)
  = Ok (str "Line 2: Second line").
Proof.
  apply verifyLineContent_accepts_the_line;
    [reflexivity | repeat constructor | repeat constructor].
Defined.

(** X6. The check reports that the line does not exist, with the number
    of lines of the file, exactly when the line number is below 1 or above
    that number; a file always has at least one line. *)
Theorem verifyLineContent_line_does_not_exist
    (f : File) (lineNumber : Z) (expected : jsstring) :
  let fileLines := Z.of_nat (length (split_lines (content f))) in
  1 <= fileLines
  /\ (verifyLineContent f lineNumber expected
      = Err (LineDoesNotExist lineNumber fileLines)
      <-> lineNumber < 1 \/ fileLines < lineNumber).
Proof.
  intros fileLines. split.
  { unfold fileLines. pose proof (split_lines_nonempty (content f)).
    destruct (split_lines (content f)); [congruence | simpl; lia]. }
  unfold verifyLineContent, readFileSync. fold fileLines.
  destruct (lineNumber <? 1) eqn:H1.
  { apply Z.ltb_lt in H1. cbn [orb]. split; auto. }
  apply Z.ltb_ge in H1.
  destruct (lineNumber >? fileLines) eqn:H2.
  { apply Z.gtb_lt in H2. cbn [orb]. split; auto. }
  cbn [orb].
  assert (~ lineNumber > fileLines) as H2'.
  { intros H. apply Z.gt_lt, Z.gtb_lt in H. congruence. }
  split; [|lia].
  destruct (index _ _); [|discriminate].
  destruct (strict_eqb _ _); discriminate.
Qed.

(** ** Lines, again *)

Lemma split_lines_app (a b : jsstring) :
  split_lines (a ++ LF :: b) = split_lines a ++ split_lines b.
Proof.
  induction a as [|c a IH]; [reflexivity|].
  cbn [app split_lines]. rewrite IH.
  destruct (c =? LF)%N; [reflexivity|].
  pose proof (split_lines_nonempty a) as Hne.
  destruct (split_lines a) as [|l ls]; [congruence | reflexivity].
Qed.

(** The lines of a joined array are the lines of its elements. *)
Lemma split_join_flat_map (lines : list jsstring) :
  lines <> [] ->
  split_lines (join_lines lines) = flat_map split_lines lines.
Proof.
  induction lines as [|l rest IH]; [congruence|]. intros _.
  destruct rest as [|l' rest]; [simpl; now rewrite app_nil_r|].
  rewrite join_lines_cons by discriminate.
  rewrite split_lines_app, IH by discriminate. reflexivity.
Qed.

Lemma flat_map_split_single (lines : list jsstring) :
  Forall single_line lines -> flat_map split_lines lines = lines.
Proof.
  induction 1 as [|l rest Hl _ IH]; [reflexivity|].
  simpl. now rewrite (split_lines_of_single l Hl), IH.
Qed.

Lemma join_lines_app (X Y : list jsstring) :
  X <> [] -> Y <> [] ->
  join_lines (X ++ Y) = join_lines X ++ LF :: join_lines Y.
Proof.
  induction X as [|x X IH]; [congruence|]. intros _ HY.
  destruct X as [|x' X].
  - simpl app. now rewrite join_lines_cons.
  - change ((x :: x' :: X) ++ Y) with (x :: (x' :: X) ++ Y).
    rewrite join_lines_cons by discriminate.
    rewrite IH by (discriminate || assumption).
    rewrite (join_lines_cons x (x' :: X)) by discriminate.
    now rewrite <- app_assoc.
Qed.

(** Only the join of a part of an array shows in the join of the array. *)
Lemma join_lines_middle (A M M' B : list jsstring) :
  M <> [] -> M' <> [] -> join_lines M = join_lines M' ->
  join_lines (A ++ M ++ B) = join_lines (A ++ M' ++ B).
Proof.
  intros HM HM' Heq.
  assert (forall N, N <> [] -> N ++ B <> []) as Hne
      by (intros [|n N]; [congruence | discriminate]).
  assert (join_lines (M ++ B) = join_lines (M' ++ B)) as Htail.
  { destruct B as [|b B]; [now rewrite !app_nil_r|].
    rewrite !join_lines_app by (assumption || discriminate).
    now rewrite Heq. }
  destruct A as [|a A]; [exact Htail|].
  rewrite (join_lines_app (a :: A) (M ++ B)) by (auto; discriminate).
  rewrite (join_lines_app (a :: A) (M' ++ B)) by (auto; discriminate).
  now rewrite Htail.
Qed.

Lemma file_lines_single (f : File) :
  Forall single_line (split_lines (content f)).
Proof. apply split_lines_single. Qed.

(** ** delete_from_file and replace_lines_in_file *)

(** The checks the two line-range tools share, when they all pass. *)
Lemma range_checks_pass (f : File) (s e : Z) (expected line : jsstring) :
  let lines := split_lines (content f) in
  index lines (s - 1) = Some line ->
  normalizeContent line = normalizeContent expected ->
  s <= e <= Z.of_nat (length lines) ->
  (exists actual, verifyLineContent f s expected = Ok actual)
  /\ (s >? Z.of_nat (length lines)) || (e >? Z.of_nat (length lines)) = false
  /\ (s >? e) = false
  /\ slice lines 0 (s - 1) = firstn (Z.to_nat (s - 1)) lines
  /\ slice_from lines e = skipn (Z.to_nat e) lines.
Proof.
  intros lines Hi Hn Hr. pose proof (index_Some_range _ _ _ Hi) as Hs.
  split; [apply verifyLineContent_Ok; eauto|].
  split.
  { apply orb_false_iff. split.
    - destruct (s >? _) eqn:H; [apply Z.gtb_lt in H; lia | reflexivity].
    - destruct (e >? _) eqn:H; [apply Z.gtb_lt in H; lia | reflexivity]. }
  split.
  { destruct (s >? e) eqn:H; [apply Z.gtb_lt in H; lia | reflexivity]. }
  split; [apply slice_prefix; lia | apply slice_from_suffix; lia].
Qed.

(** X7. Deleting lines [s..e], with [s <= e] inside the file and the
    start line verified, writes the file once: the lines before [s]
    followed by the lines after [e], [e - s + 1] lines fewer. When every
    line of the file is deleted the file becomes empty (and so reads back
    as one empty line). *)
Theorem delete_from_file_removes_the_range
    (f : File) (s e : Z) (expected line : jsstring) :
  let lines := split_lines (content f) in
  let kept := firstn (Z.to_nat (s - 1)) lines ++ skipn (Z.to_nat e) lines in
  index lines (s - 1) = Some line ->
  normalizeContent line = normalizeContent expected ->
  s <= e <= Z.of_nat (length lines) ->
  exists f',
    delete_from_file f s e expected = (f', RangeDone s e)
    /\ write_log f' = write_log f ++ [content f']
    /\ Z.of_nat (length kept) = Z.of_nat (length lines) - (e - s + 1)
    /\ (kept <> [] -> split_lines (content f') = kept)
    /\ (kept = [] -> content f' = [] /\ split_lines (content f') = [[]]).
Proof.
  intros lines kept Hi Hn Hr.
  pose proof (index_Some_range _ _ _ Hi) as Hs.
  destruct (range_checks_pass f s e expected line Hi Hn Hr)
    as ([actual Hv] & Hb & Hinv & Hpre & Hsuf).
  unfold delete_from_file, readFileSync. rewrite Hv.
  cbv zeta. rewrite Hb, Hinv, Hpre, Hsuf. fold lines. fold kept.
  eexists. split; [reflexivity|]. cbn [content write_log writeFileSync].
  split; [reflexivity|]. split.
  { unfold kept. rewrite length_app, length_firstn, length_skipn. lia. }
  split.
  - intros Hne. apply split_join_lines; [exact Hne|].
    apply Forall_app. split.
    + apply Forall_firstn, file_lines_single.
    + apply Forall_skipn, file_lines_single.
  - intros ->. split; reflexivity.
Qed.

Lemma delete_from_file_removes_the_range_witness :
  exists f',
    delete_from_file five_line_file 2 4 (str "Line 2:   Second line")
    = (f', RangeDone 2 4)
    /\ split_lines (content f')
       = [str "Line 1: First line"; str "Line 5: Fifth line"].
Proof.
  destruct (delete_from_file_removes_the_range five_line_file 2 4
              (str "Line 2:   Second line") (str "Line 2: Second line")
              eq_refl eq_refl)
    as (f' & Hcall & _ & _ & Hkept & _); [simpl; lia|].
  exists f'. split; [exact Hcall|]. apply Hkept. discriminate.
Defined.



Lemma range_tool_done_checks (f : File) (s e : Z) (expected : jsstring) :
  let lines := split_lines (content f) in
  (exists actual, verifyLineContent f s expected = Ok actual) ->
  (s >? Z.of_nat (length lines)) || (e >? Z.of_nat (length lines)) = false ->
  (s >? e) = false ->
  (exists line, index lines (s - 1) = Some line
     /\ normalizeContent line = normalizeContent expected)
  /\ s <= e <= Z.of_nat (length lines).
Proof.
  intros lines Hv Hb Hinv. apply verifyLineContent_Ok in Hv.
  split; [exact Hv|].
  apply orb_false_iff in Hb. destruct Hb as [_ Hb].
  pose proof (Zgt_cases e (Z.of_nat (length lines))) as H1.
  pose proof (Zgt_cases s e) as H2.
  rewrite Hb in H1. rewrite Hinv in H2. lia.
Qed.

(** X9. The two line-range tools succeed on the same requests: exactly
    when line [s] exists, its normalized text is the normalized expected
    text, and [s <= e <= number of lines]. *)
Theorem line_range_tools_succeed_iff
    (f : File) (s e : Z) (expected contents : jsstring) :
  let lines := split_lines (content f) in
  let accepted :=
    (exists line, index lines (s - 1) = Some line
       /\ normalizeContent line = normalizeContent expected)
    /\ s <= e <= Z.of_nat (length lines) in
  (snd (delete_from_file f s e expected) = RangeDone s e <-> accepted)
  /\ (snd (replace_lines_in_file f s e expected contents) = RangeDone s e
      <-> accepted).
Proof.
  intros lines accepted.
  assert (accepted ->
          (exists actual, verifyLineContent f s expected = Ok actual)
          /\ (s >? Z.of_nat (length lines)) || (e >? Z.of_nat (length lines))
             = false
          /\ (s >? e) = false) as Hfwd.
  { intros [[line [Hi Hn]] Hr].
    destruct (range_checks_pass f s e expected line Hi Hn Hr)
      as (Hv & Hb & Hinv & _). auto. }
  split; split.
  - unfold delete_from_file, readFileSync.
    destruct (verifyLineContent f s expected) as [a|err] eqn:Hv;
      [|discriminate].
    cbv zeta. fold lines.
    destruct ((s >? _) || (e >? _)) eqn:Hb; [discriminate|].
    destruct (s >? e) eqn:Hinv; [discriminate|]. intros _.
    apply (range_tool_done_checks f s e expected); eauto.
  - intros Hacc. destruct (Hfwd Hacc) as ([a Hv] & Hb & Hinv).
    unfold delete_from_file, readFileSync. rewrite Hv. cbv zeta.
    fold lines. now rewrite Hb, Hinv.
  - unfold replace_lines_in_file, readFileSync.
    destruct (verifyLineContent f s expected) as [a|err] eqn:Hv;
      [|discriminate].
    cbv zeta. fold lines.
    destruct ((s >? _) || (e >? _)) eqn:Hb; [discriminate|].
    destruct (s >? e) eqn:Hinv; [discriminate|]. intros _.
    apply (range_tool_done_checks f s e expected); eauto.
  - intros Hacc. destruct (Hfwd Hacc) as ([a Hv] & Hb & Hinv).
    unfold replace_lines_in_file, readFileSync. rewrite Hv. cbv zeta.
    fold lines. now rewrite Hb, Hinv.
Qed.

(** ** insert_into_file, line by line *)




(** ** More on multireplace_lines_in_file *)

Lemma filter_partition_length {A} (p : A -> bool) (l : list A) :
  (length (filter p l) + length (filter (fun x => negb (p x)) l))%nat
  = length l.
Proof.
  induction l as [|x l IH]; [reflexivity|]. simpl.
  destruct (p x); simpl; lia.
Qed.

(** X11. The two counts of the summary line account for every submitted
    edit: successes and failures add up to the size of the batch. *)
Theorem multireplace_counts_add_up
    (f f' : File) (edits : list Edit) (report : Report) :
  multireplace_lines_in_file f edits = (f', Ok report) ->
  (successful report + failed report)%nat = length edits.
Proof.
  intros Hcall.
  destruct (multireplace_completed _ _ _ _ Hcall)
    as (_ & _ & _ & _ & -> & ->).
  rewrite filter_partition_length, process_edits_length.
  apply sort_length.
Qed.

Lemma multireplace_counts_add_up_witness :
  let absent := {| line_start := 9; line_end := 9;
                   line_start_contents := str "none"; contents := str "x" |} in
  let first := {| line_start := 1; line_end := 1;
                  line_start_contents := str "Line 1: First line";
                  contents := str "y" |} in
  exists f' report,
    multireplace_lines_in_file five_line_file [absent; first]
    = (f', Ok report)
    /\ (successful report + failed report)%nat = 2%nat.
Proof.
  intros absent first. do 2 eexists. split; [reflexivity|].
  apply (multireplace_counts_add_up five_line_file _ [absent; first] _
           eq_refl).
Defined.

Lemma try_edit_gone (originalLines : list jsstring) (w : Working)
    (edit : Edit) (n : Z) :
  try_edit originalLines w edit = Err (TargetRangeGone n) ->
  passes_original_checks originalLines edit
  /\ Z.of_nat (length (workingLines w)) <= currentStartIndex w edit.
Proof.
  unfold try_edit, passes_original_checks.
  destruct (line_start edit >? _) eqn:H1; [discriminate|].
  destruct (line_end edit >? _) eqn:H2; [discriminate|].
  destruct (line_start edit >? line_end edit) eqn:H3; [discriminate|].
  destruct (index originalLines (line_start edit - 1)) as [l|] eqn:Hi;
    [|discriminate].
  destruct (strict_eqb l (line_start_contents edit)) eqn:He;
    [|discriminate].
  cbn [negb]. apply strict_eqb_eq in He. subst l.
  destruct (currentStartIndex w edit >=? _) eqn:Hge; [|discriminate].
  intros _. apply Z.geb_le in Hge.
  pose proof (Zgt_cases (line_start edit) (Z.of_nat (length originalLines))).
  pose proof (Zgt_cases (line_end edit) (Z.of_nat (length originalLines))).
  pose proof (Zgt_cases (line_start edit) (line_end edit)).
  rewrite H1 in *. rewrite H2 in *. rewrite H3 in *. auto.
Qed.

(** An iteration whose translated range is inside the working copy
    succeeds exactly when the edit passes the checks against the
    original, and never reports a vanished range. *)
Lemma process_edit_inside (originalLines : list jsstring) (w : Working)
    (i : Z) (edit : Edit) :
  (passes_original_checks originalLines edit -> translated_inside w edit) ->
  (success (snd (process_edit originalLines w i edit)) = true
   <-> passes_original_checks originalLines edit)
  /\ forall n, error (snd (process_edit originalLines w i edit))
               <> Some (TargetRangeGone n).
Proof.
  intros Hin. unfold process_edit.
  destruct (try_edit originalLines w edit) as [[w' shift]|err] eqn:Htry;
    cbn [snd success error].
  - pose proof (try_edit_Ok_checks _ _ _ _ _ Htry). split; [tauto|].
    discriminate.
  - assert (~ passes_original_checks originalLines edit) as Hnot.
    { intros Hc. destruct (Hin Hc) as [Hs _].
      rewrite (try_edit_after_checks _ _ _ Hc) in Htry.
      destruct (currentStartIndex w edit >=? _) eqn:Hge; [|discriminate].
      apply Z.geb_le in Hge. lia. }
    split; [split; [discriminate | tauto]|].
    intros n [= ->]. apply try_edit_gone in Htry. tauto.
Qed.

Lemma process_edits_inside (originalLines : list jsstring)
    (edits : list Edit) :
  forall (w : Working) (i : Z),
    Forall (fun it => passes_original_checks originalLines (snd it) ->
                      translated_inside (fst it) (snd it))
      (iterations originalLines w edits) ->
    Forall2
      (fun r e =>
         (success r = true <-> passes_original_checks originalLines e)
         /\ forall n, error r <> Some (TargetRangeGone n))
      (snd (process_edits originalLines w i edits)) edits.
Proof.
  induction edits as [|edit rest IH]; intros w i Hall; [constructor|].
  cbn [iterations] in Hall. inversion Hall as [|? ? Hhead Hrest]; subst.
  rewrite process_edits_cons. cbn [snd fst] in *.
  constructor; [now apply process_edit_inside|].
  apply IH.
  now destruct (process_edit_index originalLines w i 0 edit) as [-> _].
Qed.

(** X12. In a batch that passes the overlap check, whether an edit
    succeeds depends on the original file and on the edit alone: it
    succeeds exactly when its two line numbers are within the original
    file, [line_start <= line_end], and the original start line is the
    expected text, character for character. No edit is ever refused
    because an earlier edit made its target range vanish. *)
Theorem multireplace_success_is_decided_by_the_original
    (f f' : File) (edits : list Edit) (report : Report) :
  multireplace_lines_in_file f edits = (f', Ok report) ->
  Forall2
    (fun r e =>
       (success r = true
        <-> passes_original_checks (split_lines (content f)) e)
       /\ forall n, error r <> Some (TargetRangeGone n))
    (results report) (sort compare_edits edits).
Proof.
  intros Hcall.
  destruct (multireplace_completed _ _ _ _ Hcall) as (Hchk & _ & -> & _).
  apply process_edits_inside.
  now apply multireplace_translated_inside.
Qed.

Lemma multireplace_success_is_decided_by_the_original_witness :
  let shrink := {| line_start := 1; line_end := 4;
                   line_start_contents := str "Line 1: First line";
                   contents := str "one line" |} in
  let last := {| line_start := 5; line_end := 5;
                 line_start_contents := str "Line 5: Fifth line";
                 contents := str "LAST" |} in
  exists f' report,
    multireplace_lines_in_file five_line_file [last; shrink]
    = (f', Ok report)
    /\ Forall2
         (fun r e =>
            (success r = true
             <-> passes_original_checks
                   (split_lines (content five_line_file)) e)
            /\ forall n, error r <> Some (TargetRangeGone n))
         (results report) [shrink; last]
    /\ content f' = str "one line" ++ LF :: str "LAST".
Proof.
  intros shrink last. do 2 eexists. split; [reflexivity|].
  split; [|reflexivity].
  eapply multireplace_success_is_decided_by_the_original
    with (f := five_line_file) (edits := [last; shrink]).
  reflexivity.
Defined.

(** What makes the overlap loop throw: the first edit starts at or before
    the initial [previousEnd], or some edit starts at or before the end of
    the edit just before it. *)
Lemma check_overlaps_Some (edits : list Edit) :
  forall (previousEnd n : Z),
    check_overlaps previousEnd edits = Some n ->
    (exists e rest, edits = e :: rest /\ line_start e = n
                    /\ n <= previousEnd)
    \/ (exists s1 u t s2, edits = s1 ++ u :: t :: s2
                          /\ line_start t = n /\ n <= line_end u).
Proof.
  induction edits as [|e rest IH]; intros p n; simpl; [discriminate|].
  destruct (line_start e <=? p) eqn:He.
  - intros [= <-]. apply Z.leb_le in He. left. eauto.
  - intros H. right. destruct (IH _ _ H) as
        [(t & rest' & -> & Ht & Hle)|(s1 & u & t & s2 & -> & Ht & Hle)].
    + exists [], e, t, rest'. auto.
    + exists (e :: s1), u, t, s2. auto.
Qed.

Lemma perm_two_positions {A} (l rest : list A) (a b : A) :
  Permutation l (a :: b :: rest) ->
  exists i j, i <> j /\ nth_error l i = Some a /\ nth_error l j = Some b.
Proof.
  intros Hp.
  destruct (perm_two_split l rest a b Hp) as (l1 & l2 & l3 & [-> | ->]).
  - exists (length l1), (length (l1 ++ a :: l2)).
    split; [rewrite length_app; simpl; lia|].
    split; [now apply nth_error_middle|].
    replace (l1 ++ a :: l2 ++ b :: l3) with ((l1 ++ a :: l2) ++ b :: l3)
      by (now rewrite <- app_assoc).
    now apply nth_error_middle.
  - exists (length (l1 ++ b :: l2)), (length l1).
    split; [rewrite length_app; simpl; lia|].
    split; [|now apply nth_error_middle].
    replace (l1 ++ b :: l2 ++ a :: l3) with ((l1 ++ b :: l2) ++ a :: l3)
      by (now rewrite <- app_assoc).
    now apply nth_error_middle.
Qed.

(** X13. The overlap error is never raised without cause: when every
    line_start is at least 0 (the schema asks for positive numbers), a
    batch is rejected only if two of its edits, at different positions,
    satisfy [a.line_start <= b.line_start <= a.line_end]; the line named
    in the error is [b.line_start]. *)
Theorem overlap_error_has_a_cause
    (f f' : File) (edits : list Edit) (n : Z) :
  (forall e, In e edits -> 0 <= line_start e) ->
  multireplace_lines_in_file f edits = (f', Err (OverlappingRanges n)) ->
  exists (i j : nat) (a b : Edit),
    i <> j
    /\ nth_error edits i = Some a /\ nth_error edits j = Some b
    /\ line_start a <= line_start b <= line_end a
    /\ line_start b = n.
Proof.
  intros Hpos Hcall. unfold multireplace_lines_in_file in Hcall.
  destruct (check_overlaps (-1) (sort compare_edits edits)) as [m|] eqn:Hchk.
  2:{ destruct (process_edits _ _ _ _). discriminate. }
  injection Hcall as _ ->.
  pose proof (sort_perm compare_edits edits) as Hperm.
  pose proof (sorted_edits edits) as Hsorted.
  destruct (check_overlaps_Some _ _ _ Hchk)
    as [(e & rest & Hs & He & Hle)|(s1 & u & t & s2 & Hs & Ht & Hle)].
  - exfalso. assert (In e edits) as Hin.
    { eapply Permutation_in; [exact Hperm|]. rewrite Hs. now left. }
    specialize (Hpos e Hin). lia.
  - rewrite Hs in Hsorted, Hperm.
    apply strongly_sorted_app_r in Hsorted.
    inversion Hsorted as [|? ? _ Hall]; subst.
    inversion Hall as [|? ? Hut _]; subst.
    apply compare_edits_le in Hut.
    assert (Permutation edits (u :: t :: s1 ++ s2)) as Hp.
    { rewrite <- Hperm. symmetry.
      rewrite <- Permutation_middle. constructor.
      now rewrite <- Permutation_middle. }
    destruct (perm_two_positions edits _ u t Hp) as (i & j & Hij & Hi & Hj).
    exists i, j, u, t. repeat split; auto; lia.
Qed.

Lemma overlap_error_has_a_cause_witness :
  let a := {| line_start := 2; line_end := 4;
              line_start_contents := str "2"; contents := str "X" |} in
  let b := {| line_start := 4; line_end := 6;
              line_start_contents := str "4"; contents := str "Y" |} in
  multireplace_lines_in_file seven_line_file [b; a]
  = (seven_line_file, Err (OverlappingRanges 4))
  /\ exists (i j : nat) (x y : Edit),
       i <> j
       /\ nth_error [b; a] i = Some x /\ nth_error [b; a] j = Some y
       /\ line_start x <= line_start y <= line_end x
       /\ line_start y = 4.
Proof.
  intros a b. split; [reflexivity|].
  apply (overlap_error_has_a_cause seven_line_file seven_line_file [b; a] 4);
    [|reflexivity].
  intros e [<-|[<-|[]]]; simpl; lia.
Defined.

(** The batch tool on a batch of one edit. *)
Lemma multireplace_single (f : File) (edit : Edit) :
  -1 < line_start edit ->
  let originalLines := split_lines (content f) in
  let step :=
    process_edit originalLines
      {| workingLines := originalLines; lineShifts := [] |} 0 edit in
  fst (multireplace_lines_in_file f [edit])
  = writeFileSync f (join_lines (workingLines (fst step)))
  /\ exists report,
       snd (multireplace_lines_in_file f [edit]) = Ok report
       /\ results report = [snd step].
Proof.
  intros Hs originalLines step.
  unfold multireplace_lines_in_file, readFileSync. cbn [sort fold_right sort_insert].
  cbn [check_overlaps].
  destruct (line_start edit <=? -1) eqn:H; [apply Z.leb_le in H; lia|].
  fold originalLines. cbn [process_edits]. fold step.
  destruct step as [w r]. cbn [fst snd]. split; [reflexivity|].
  eexists. split; reflexivity.
Qed.

(** X14. A batch of one edit whose expected text is the original start
    line, character for character, leaves the file with the text
    [replace_lines_in_file] leaves for the same request, and the edit
    succeeds exactly when [replace_lines_in_file] succeeds. *)
Theorem single_edit_batch_is_replace_lines (f : File) (edit : Edit) :
  index (split_lines (content f)) (line_start edit - 1)
  = Some (line_start_contents edit) ->
  let single :=
    replace_lines_in_file f (line_start edit) (line_end edit)
      (line_start_contents edit) (contents edit) in
  content (fst (multireplace_lines_in_file f [edit])) = content (fst single)
  /\ exists report r,
       snd (multireplace_lines_in_file f [edit]) = Ok report
       /\ results report = [r]
       /\ (success r = true
           <-> snd single = RangeDone (line_start edit) (line_end edit)).
Proof.
  intros Hi single.
  pose proof (index_Some_range _ _ _ Hi) as Hr.
  set (lines := split_lines (content f)) in *.
  set (start := {| workingLines := lines; lineShifts := [] |}).
  destruct (multireplace_single f edit) as (Hfst & report & Hsnd & Hres);
    [lia|].
  fold lines in Hfst, Hres. fold start in Hfst, Hres.
  rewrite Hfst. cbn [content writeFileSync].
  assert (exists a, verifyLineContent f (line_start edit)
                      (line_start_contents edit) = Ok a) as [a Hv]
      by (apply verifyLineContent_Ok; eauto).
  assert (workingLines (fst (process_edit lines start 0 edit))
            = (if (line_end edit <=? Z.of_nat (length lines))
                  && (line_start edit <=? line_end edit)
               then slice lines 0 (line_start edit - 1)
                    ++ split_lines (contents edit)
                    ++ slice_from lines (line_end edit)
               else lines)
          /\ success (snd (process_edit lines start 0 edit))
             = (line_end edit <=? Z.of_nat (length lines))
               && (line_start edit <=? line_end edit)) as [Hw Hsucc].
  { unfold process_edit.
    destruct (line_end edit <=? Z.of_nat (length lines)) eqn:He;
      [destruct (line_start edit <=? line_end edit) eqn:Hse|].
    - apply Z.leb_le in He. apply Z.leb_le in Hse.
      assert (passes_original_checks lines edit) as Hc
          by (repeat split; auto; lia).
      rewrite (try_edit_after_checks _ _ _ Hc).
      assert (currentStartIndex start edit = line_start edit - 1) as ->
          by (unfold currentStartIndex, adjustment; simpl; lia).
      assert (currentEndIndex start edit + 1 = line_end edit) as ->.
      { unfold currentEndIndex, translatedEndIndex, adjustment. simpl.
        destruct (line_end edit - 1 + 0 >=? _) eqn:Hge;
          [apply Z.geb_le in Hge; lia | lia]. }
      cbn [workingLines start].
      destruct (line_start edit - 1 >=? _) eqn:Hge;
        [apply Z.geb_le in Hge; lia|].
      split; reflexivity.
    - apply Z.leb_gt in Hse.
      assert (try_edit lines start edit = Err LineStartAfterLineEnd) as ->.
      { unfold try_edit.
        destruct (line_start edit >? _) eqn:H1; [apply Z.gtb_lt in H1; lia|].
        apply Z.leb_le in He.
        destruct (line_end edit >? _) eqn:H2; [apply Z.gtb_lt in H2; lia|].
        destruct (line_start edit >? line_end edit) eqn:H3; [reflexivity|].
        pose proof (Zgt_cases (line_start edit) (line_end edit)) as H.
        rewrite H3 in H. lia. }
      split; reflexivity.
    - apply Z.leb_gt in He.
      assert (exists err, try_edit lines start edit = Err err) as [err ->].
      { unfold try_edit.
        destruct (line_start edit >? _) eqn:H1; [apply Z.gtb_lt in H1; lia|].
        destruct (line_end edit >? _) eqn:H2; [eauto|].
        pose proof (Zgt_cases (line_end edit) (Z.of_nat (length lines))) as H.
        rewrite H2 in H. lia. }
      split; reflexivity. }
  rewrite Hw. unfold single, replace_lines_in_file, readFileSync.
  rewrite Hv. cbv zeta. fold lines.
  assert ((line_start edit >? Z.of_nat (length lines)) = false) as ->.
  { destruct (line_start edit >? _) eqn:H1; [apply Z.gtb_lt in H1; lia|].
    reflexivity. }
  cbn [orb]. rewrite Z.gtb_ltb, (Z.gtb_ltb (line_start edit)).
  rewrite !Z.ltb_antisym.
  split.
  - destruct (line_end edit <=? _); cbn [negb andb];
      [|cbn [fst]; exact (join_split_lines (content f))].
    destruct (line_start edit <=? line_end edit); cbn [negb andb fst];
      [|exact (join_split_lines (content f))].
    cbn [content writeFileSync].
    apply join_lines_middle.
    + apply split_lines_nonempty.
    + discriminate.
    + apply join_split_lines.
  - exists report, (snd (process_edit lines start 0 edit)).
    split; [exact Hsnd|]. split; [exact Hres|].
    rewrite Hsucc.
    destruct (line_end edit <=? _); cbn [negb andb snd];
      [|split; discriminate].
    destruct (line_start edit <=? line_end edit); cbn [negb andb snd];
      split; (reflexivity || discriminate).
Qed.

Lemma single_edit_batch_is_replace_lines_witness :
  let edit := {| line_start := 2; line_end := 4;
                 line_start_contents := str "Line 2: Second line";
                 contents := str "A" ++ LF :: str "B" |} in
  content (fst (multireplace_lines_in_file five_line_file [edit]))
  = content (fst (replace_lines_in_file five_line_file 2 4
                    (str "Line 2: Second line") (str "A" ++ LF :: str "B"))).
Proof.
  intros edit.
  apply (single_edit_batch_is_replace_lines five_line_file edit).
  reflexivity.
Defined.

(** ** read_file *)

(** X15. Without a line range and without line numbers, [read_file]
    returns the text of the file as it is, with [full] or without. *)
Theorem read_file_whole (f : File) (full : option bool) :
  read_file f false None None full = inr (content f).
Proof.
  unfold read_file, readFileSync. cbn [truthy_number orb andb negb].
  rewrite andb_false_r. cbn [andb].
  destruct (truthy full); now rewrite join_split_lines.
Qed.

Lemma slice_inside {A} (arr : list A) (s e : Z) :
  0 <= s -> s <= e <= Z.of_nat (length arr) ->
  slice arr s e = firstn (Z.to_nat (e - s)) (skipn (Z.to_nat s) arr).
Proof.
  intros Hs He. unfold slice, relative_index.
  destruct (s <? 0) eqn:H1; [apply Z.ltb_lt in H1; lia|].
  destruct (e <? 0) eqn:H2; [apply Z.ltb_lt in H2; lia|].
  now rewrite !Z.min_l by lia.
Qed.

Lemma read_file_range_selected (f : File) (show_line_numbers : bool)
    (s e : Z) (full : option bool) :
  let lines := split_lines (content f) in
  truthy full = false ->
  1 <= s <= e -> e <= Z.of_nat (length lines) ->
  let selected := firstn (Z.to_nat (e - s + 1)) (skipn (Z.to_nat (s - 1)) lines) in
  read_file f show_line_numbers (Some s) (Some e) full
  = inr (if show_line_numbers
         then join_lines (number_lines s selected)
         else join_lines selected)
  /\ selected <> [] /\ Forall single_line selected
  /\ Z.of_nat (length selected) = e - s + 1.
Proof.
  intros lines Hfull Hse He selected.
  assert (truthy_number (Some s) = true) as Hts
      by (simpl; destruct (s =? 0) eqn:H; [apply Z.eqb_eq in H; lia|reflexivity]).
  assert (truthy_number (Some e) = true) as Hte
      by (simpl; destruct (e =? 0) eqn:H; [apply Z.eqb_eq in H; lia|reflexivity]).
  assert (forall d, number_or (Some s) d = s) as Hns
      by (intros d; simpl; destruct (s =? 0) eqn:H;
          [apply Z.eqb_eq in H; lia|reflexivity]).
  assert (forall d, number_or (Some e) d = e) as Hne
      by (intros d; simpl; destruct (e =? 0) eqn:H;
          [apply Z.eqb_eq in H; lia|reflexivity]).
  assert (Z.of_nat (length selected) = e - s + 1) as Hlen.
  { unfold selected. rewrite length_firstn, length_skipn. lia. }
  split.
  - unfold read_file, readFileSync.
    rewrite Hfull, Hts, Hte, !Hns, !Hne. cbn [andb orb negb].
    fold lines.
    destruct (s >? e) eqn:H1; [apply Z.gtb_lt in H1; lia|].
    destruct (s >? Z.of_nat (length lines)) eqn:H2;
      [apply Z.gtb_lt in H2; lia|].
    destruct (e >? Z.of_nat (length lines)) eqn:H3;
      [apply Z.gtb_lt in H3; lia|].
    rewrite slice_inside by lia.
    replace (e - (s - 1)) with (e - s + 1) by lia.
    fold selected. now destruct show_line_numbers.
  - split; [destruct selected; [simpl in Hlen; lia | discriminate]|].
    split; [|exact Hlen].
    apply Forall_firstn, Forall_skipn, file_lines_single.
Qed.

(** X16. Reading lines [s..e], [1 <= s <= e <= number of lines], without
    [full], returns exactly these [e - s + 1] lines: line [k] of the
    answer is line [s + k] of the file. *)
Theorem read_file_range
    (f : File) (s e : Z) (full : option bool) :
  let lines := split_lines (content f) in
  truthy full = false ->
  1 <= s <= e -> e <= Z.of_nat (length lines) ->
  exists text,
    read_file f false (Some s) (Some e) full = inr text
    /\ Z.of_nat (length (split_lines text)) = e - s + 1
    /\ forall k, 0 <= k <= e - s ->
         index (split_lines text) k = index lines (s - 1 + k).
Proof.
  intros lines Hfull Hse He.
  destruct (read_file_range_selected f false s e full Hfull Hse He)
    as (Hread & Hne & Hsingle & Hlen).
  eexists. split; [exact Hread|].
  rewrite split_join_lines by assumption.
  split; [exact Hlen|].
  intros k Hk. rewrite index_firstn by lia.
  now rewrite index_skipn by lia.
Qed.

Lemma read_file_range_witness :
  exists text,
    read_file five_line_file false (Some 4) (Some 5) None = inr text
    /\ Z.of_nat (length (split_lines text)) = 5 - 4 + 1
    /\ forall k, 0 <= k <= 5 - 4 ->
         index (split_lines text) k
         = index (split_lines (content five_line_file)) (4 - 1 + k).
Proof.
  apply (read_file_range five_line_file 4 5 None);
    [reflexivity | lia | simpl; lia].
Defined.

(** X17. A request with both bounds (not 0) is answered with text exactly
    when [full] is not set and [start_line <= end_line <= number of
    lines]; a request with only one of the two bounds is always refused. *)
Theorem read_file_range_accepted
    (f : File) (show_line_numbers : bool) (s e : Z) (full : option bool) :
  s <> 0 -> e <> 0 ->
  ((exists text,
       read_file f show_line_numbers (Some s) (Some e) full = inr text)
   <-> truthy full = false
       /\ s <= e <= Z.of_nat (length (split_lines (content f))))
  /\ (exists err,
        read_file f show_line_numbers (Some s) None full = inl err)
  /\ (exists err,
        read_file f show_line_numbers None (Some e) full = inl err).
Proof.
  intros Hs He.
  assert (truthy_number (Some s) = true) as Hts
      by (simpl; destruct (s =? 0) eqn:H; [apply Z.eqb_eq in H; lia|reflexivity]).
  assert (truthy_number (Some e) = true) as Hte
      by (simpl; destruct (e =? 0) eqn:H; [apply Z.eqb_eq in H; lia|reflexivity]).
  assert (forall d, number_or (Some s) d = s) as Hns
      by (intros d; simpl; destruct (s =? 0) eqn:H;
          [apply Z.eqb_eq in H; lia|reflexivity]).
  assert (forall d, number_or (Some e) d = e) as Hne
      by (intros d; simpl; destruct (e =? 0) eqn:H;
          [apply Z.eqb_eq in H; lia|reflexivity]).
  split; [|split].
  - unfold read_file, readFileSync.
    rewrite Hts, Hte, !Hns, !Hne. cbn [andb orb negb].
    destruct (truthy full); cbn [andb].
    { split; [intros [t H]; discriminate | intros [H _]; discriminate]. }
    pose proof (Zgt_cases s e) as H1.
    pose proof (Zgt_cases s (Z.of_nat (length (split_lines (content f)))))
      as H2.
    pose proof (Zgt_cases e (Z.of_nat (length (split_lines (content f)))))
      as H3.
    destruct (s >? e).
    { split; [intros [t H]; discriminate | intros [_ H]; lia]. }
    destruct (s >? _).
    { split; [intros [t H]; discriminate | intros [_ H]; lia]. }
    destruct (e >? _).
    { split; [intros [t H]; discriminate | intros [_ H]; lia]. }
    split; [intros _; split; [reflexivity | lia]|].
    intros _. destruct show_line_numbers; eauto.
  - unfold read_file. rewrite Hts. cbn [truthy_number andb orb negb].
    destruct (truthy full); cbn [andb]; eauto.
  - unfold read_file. rewrite Hte. cbn [truthy_number andb orb negb].
    destruct (truthy full); cbn [andb]; eauto.
Qed.

Lemma read_file_range_accepted_witness :
  (exists text, read_file five_line_file true (Some 2) (Some 3) None = inr text)
  /\ read_file five_line_file false (Some 2) (Some 9) None
     = inl (EndBeyondFile 9 5)
  /\ read_file five_line_file false (Some 2) None None
     = inl StartAndEndTogether.
Proof.
  destruct (read_file_range_accepted five_line_file true 2 3 None)
    as [Hiff _]; [lia | lia |].
  split; [apply Hiff; split; [reflexivity | simpl; lia]|].
  split; reflexivity.
Defined.

Lemma digits_single (d : Decimal.uint) :
  single_line (str (NilEmpty.string_of_uint d)).
Proof.
  induction d; simpl; constructor; try assumption; discriminate.
Qed.

Lemma number_to_string_single (n : Z) : single_line (number_to_string n).
Proof.
  unfold number_to_string, NilZero.string_of_int, NilZero.string_of_uint.
  destruct (Z.to_int n) as [d|d].
  - destruct d; try apply digits_single.
    simpl. repeat constructor. discriminate.
  - simpl. constructor; [discriminate|].
    destruct d; try apply digits_single.
    simpl. repeat constructor. discriminate.
Qed.

Lemma number_lines_nth (lines : list jsstring) :
  forall (n : Z) (k : nat),
    nth_error (number_lines n lines) k
    = option_map
        (fun line => number_to_string (n + Z.of_nat k) ++ str " | " ++ line)
        (nth_error lines k).
Proof.
  induction lines as [|l rest IH]; intros n k.
  - now destruct k.
  - destruct k as [|k]; simpl.
    + now rewrite Z.add_0_r.
    + rewrite IH. destruct (nth_error rest k); [|reflexivity].
      simpl. do 3 f_equal. lia.
Qed.

Lemma number_lines_length (lines : list jsstring) (n : Z) :
  length (number_lines n lines) = length lines.
Proof.
  revert n. induction lines as [|l rest IH]; intros n; simpl; [reflexivity|].
  now rewrite IH.
Qed.

Lemma number_lines_single (lines : list jsstring) :
  Forall single_line lines ->
  forall n, Forall single_line (number_lines n lines).
Proof.
  induction 1 as [|l rest Hl _ IH]; intros n; simpl; constructor; auto.
  apply Forall_app. split; [apply number_to_string_single|].
  simpl. repeat (constructor; [discriminate|]). exact Hl.
Qed.

(** X18. With [show_line_numbers], line [k] of the answer to a request
    for lines [s..e] is the number [s + k], the separator [ | ] and line
    [s + k] of the file. *)
Theorem read_file_numbered
    (f : File) (s e : Z) (full : option bool) :
  let lines := split_lines (content f) in
  truthy full = false ->
  1 <= s <= e -> e <= Z.of_nat (length lines) ->
  exists text,
    read_file f true (Some s) (Some e) full = inr text
    /\ Z.of_nat (length (split_lines text)) = e - s + 1
    /\ forall k line,
         0 <= k <= e - s ->
         index lines (s - 1 + k) = Some line ->
         index (split_lines text) k
         = Some (number_to_string (s + k) ++ str " | " ++ line).
Proof.
  intros lines Hfull Hse He.
  destruct (read_file_range_selected f true s e full Hfull Hse He)
    as (Hread & Hne & Hsingle & Hlen).
  eexists. split; [exact Hread|].
  rewrite split_join_lines.
  - split; [now rewrite number_lines_length|].
    intros k line Hk Hline. unfold index.
    destruct (k <? 0) eqn:H0; [apply Z.ltb_lt in H0; lia|].
    rewrite number_lines_nth.
    match goal with
    | |- context [nth_error ?sel (Z.to_nat k)] =>
        assert (index sel k = Some line) as Hsel
    end.
    { rewrite index_firstn by lia. rewrite index_skipn by lia.
      exact Hline. }
    unfold index in Hsel. rewrite H0 in Hsel. rewrite Hsel.
    simpl. do 3 f_equal. lia.
  - intros Hnil. apply (f_equal (@length _)) in Hnil.
    rewrite number_lines_length in Hnil. simpl in Hnil. lia.
  - now apply number_lines_single.
Qed.

Lemma read_file_numbered_witness :
  exists text,
    read_file five_line_file true (Some 4) (Some 5) None = inr text
    /\ index (split_lines text) 1 = Some (str "5 | Line 5: Fifth line").
Proof.
  destruct (read_file_numbered five_line_file 4 5 None)
    as (text & Hread & _ & Hk); [reflexivity | lia | simpl; lia |].
  exists text. split; [exact Hread|].
  apply (Hk 1 (str "Line 5: Fifth line")); [lia | reflexivity].
Defined.

(** ** search_file *)





Lemma context_lines_nth (lineNumber : Z) (contextLines : list jsstring) :
  forall (c : Z) (k : nat),
    nth_error (context_lines lineNumber c contextLines) k
    = option_map
        (fun t => {| ctx_marked := c + Z.of_nat k =? lineNumber;
                     ctx_number := c + Z.of_nat k;
                     ctx_text := t |})
        (nth_error contextLines k).
Proof.
  induction contextLines as [|l rest IH]; intros c k.
  - now destruct k.
  - destruct k as [|k]; simpl.
    + now rewrite Z.add_0_r.
    + rewrite IH. destruct (nth_error rest k); [|reflexivity].
      simpl. replace (c + 1 + Z.of_nat k) with (c + Z.pos (Pos.of_succ_nat k))
        by lia. reflexivity.
Qed.

Lemma context_lines_length (lineNumber : Z) (contextLines : list jsstring) :
  forall c, length (context_lines lineNumber c contextLines)
            = length contextLines.
Proof.
  induction contextLines as [|l rest IH]; intros c; simpl; [reflexivity|].
  now rewrite IH.
Qed.

(** X20. The block printed for a matching line [n] (with [lines_before]
    and [lines_after] not negative) shows the lines from
    [max(1, n - lines_before)] to [min(number of lines, n + lines_after)],
    each with its own number and text, in order, and marks line [n] and
    no other: the context never leaves the file and always holds the
    matching line. *)
Theorem search_file_context
    (lines : list jsstring) (lines_before lines_after : option Z) (i : Z) :
  0 <= number_or lines_before 0 ->
  0 <= number_or lines_after 0 ->
  0 <= i < Z.of_nat (length lines) ->
  let m := match_at lines lines_before lines_after i in
  let n := i + 1 in
  let lo := Z.max 1 (n - number_or lines_before 0) in
  let hi := Z.min (Z.of_nat (length lines)) (n + number_or lines_after 0) in
  match_line m = n
  /\ 1 <= lo <= n /\ n <= hi <= Z.of_nat (length lines)
  /\ Z.of_nat (length (match_context m)) = hi - lo + 1
  /\ forall k, 0 <= k <= hi - lo ->
       exists text,
         index lines (lo + k - 1) = Some text
         /\ index (match_context m) k
            = Some {| ctx_marked := lo + k =? n;
                      ctx_number := lo + k;
                      ctx_text := text |}.
Proof.
  intros Hb Ha Hi m n lo hi.
  assert (1 <= lo <= n) as Hlo by (unfold lo, n; lia).
  assert (n <= hi <= Z.of_nat (length lines)) as Hhi by (unfold hi, n; lia).
  assert (match_context m
          = context_lines n lo
              (firstn (Z.to_nat (hi - lo + 1))
                 (skipn (Z.to_nat (lo - 1)) lines))) as Hctx.
  { unfold m, match_at. cbn [match_context]. fold n. fold lo. fold hi.
    rewrite slice_inside by lia. do 2 f_equal. lia. }
  split; [reflexivity|]. split; [exact Hlo|]. split; [exact Hhi|].
  split.
  - rewrite Hctx, context_lines_length, length_firstn, length_skipn. lia.
  - intros k Hk.
    destruct (index_in_range lines (lo + k - 1)) as [text Ht]; [lia|].
    exists text. split; [exact Ht|].
    rewrite Hctx. unfold index.
    destruct (k <? 0) eqn:H0; [apply Z.ltb_lt in H0; lia|].
    rewrite context_lines_nth.
    match goal with
    | |- context [nth_error ?sel (Z.to_nat k)] =>
        assert (index sel k = Some text) as Hsel
    end.
    { rewrite index_firstn by lia. rewrite index_skipn by lia.
      rewrite <- Ht. f_equal. lia. }
    unfold index in Hsel. rewrite H0 in Hsel. rewrite Hsel.
    simpl. now rewrite Z2Nat.id by lia.
Qed.

Lemma search_file_context_witness :
  match_at (split_lines (content five_line_file)) (Some 1) (Some 9) 1
  = {| match_line := 2;
       match_context :=
         [ {| ctx_marked := false; ctx_number := 1;
              ctx_text := str "Line 1: First line" |};
           {| ctx_marked := true; ctx_number := 2;
              ctx_text := str "Line 2: Second line" |};
           {| ctx_marked := false; ctx_number := 3;
              ctx_text := str "Line 3: Third line with some text" |};
           {| ctx_marked := false; ctx_number := 4;
              ctx_text := str "Line 4: Fourth line" |};
           {| ctx_marked := false; ctx_number := 5;
              ctx_text := str "Line 5: Fifth line" |} ] |}
  /\ Z.of_nat (length (match_context
                         (match_at (split_lines (content five_line_file))
                            (Some 1) (Some 9) 1)))
     = 5 - 1 + 1.
Proof.
  split; [reflexivity|].
  destruct (search_file_context (split_lines (content five_line_file))
              (Some 1) (Some 9) 1) as (_ & _ & _ & Hlen & _);
    [simpl; lia | simpl; lia | simpl; lia |].
  exact Hlen.
Defined.

Example search_file_prints_context :
  search_file literal_test five_line_file (str "Line 3:") (Some 1) (Some 1)
  = MatchesFound
      (str "Match at line 3:" ++ LF
       :: str "  2 | Line 2: Second line" ++ LF
       :: str "> 3 | Line 3: Third line with some text" ++ LF
       :: str "  4 | Line 4: Fourth line").
Proof. reflexivity. Qed.

Example read_file_numbers_from_start_line :
  read_file five_line_file true (Some 4) (Some 5) None
  = inr (str "4 | Line 4: Fourth line" ++ LF
         :: str "5 | Line 5: Fifth line").
Proof. reflexivity. Qed.

(** ** The glob matcher, as it behaves *)

Section GlobBehaviour.

Import Glob.

Lemma body_of_dot (pattern : jsstring) :
  replace_char QUESTION (str ".")
    (replace_char STAR (str ".*") (replace_char DOT (str "?") pattern))
  = replace_char QUESTION (str ".") (replace_char STAR (str ".*") pattern).
Proof.
  induction pattern as [|c rest IH]; [reflexivity|].
  rewrite (body_of_cons c rest).
  change (replace_char DOT (str "?") (c :: rest))
    with (if (c =? DOT)%N
          then QUESTION :: replace_char DOT (str "?") rest
          else c :: replace_char DOT (str "?") rest).
  destruct (c =? DOT)%N eqn:Hd.
  - apply N.eqb_eq in Hd. subst c.
    rewrite body_of_cons. simpl (_ =? _)%N. now rewrite IH.
  - rewrite body_of_cons. now rewrite IH.
Qed.

(** X22. In a pattern a dot stands for any one character, like a
    question mark: writing [?] for every [.] of a pattern changes nothing
    to what the matcher answers. *)
Theorem matchesPattern_dot_is_question_mark (name pattern : jsstring) :
  matchesPattern name (Some (replace_char DOT (str "?") pattern))
  = matchesPattern name (Some pattern).
Proof.
  unfold matchesPattern.
  destruct pattern as [|c rest]; [reflexivity|].
  rewrite <- (body_of_dot (c :: rest)).
  destruct (replace_char DOT (str "?") (c :: rest)) as [|c' rest'] eqn:Hr;
    [|reflexivity].
  cbn [replace_char] in Hr. destruct (c =? DOT)%N; discriminate.
Qed.

End GlobBehaviour.

(** ** Writes *)

(** X23. Every editing tool writes the file once when it succeeds and
    leaves it as it was, nothing written, when it answers with an error. *)
Theorem editing_tools_write_once_or_not_at_all (f : File) :
  (forall E regex_source target multiple,
      let r := replace_in_file E f regex_source target multiple in
      match snd r with
      | Ok _ => write_log (fst r) = write_log f ++ [content (fst r)]
      | Err _ => fst r = f
      end)
  /\ (forall s e expected,
        let r := delete_from_file f s e expected in
        match snd r with
        | RangeDone _ _ => write_log (fst r) = write_log f ++ [content (fst r)]
        | RangeFailed _ => fst r = f
        end)
  /\ (forall n expected where_ contents,
        let r := insert_into_file f n expected where_ contents in
        match snd r with
        | Ok _ => write_log (fst r) = write_log f ++ [content (fst r)]
        | Err _ => fst r = f
        end)
  /\ (forall s e expected contents,
        let r := replace_lines_in_file f s e expected contents in
        match snd r with
        | RangeDone _ _ => write_log (fst r) = write_log f ++ [content (fst r)]
        | RangeFailed _ => fst r = f
        end)
  /\ (forall edits,
        let r := multireplace_lines_in_file f edits in
        match snd r with
        | Ok _ => write_log (fst r) = write_log f ++ [content (fst r)]
        | Err _ => fst r = f
        end).
Proof.
  repeat split; intros.
  - subst r. unfold replace_in_file.
    destruct (compile E regex_source); [|reflexivity].
    destruct (match_all E r (readFileSync f)); [reflexivity|].
    destruct (negb (truthy multiple) && _); reflexivity.
  - subst r. unfold delete_from_file.
    destruct (verifyLineContent f s expected); [|reflexivity]. cbv zeta.
    destruct ((s >? _) || (e >? _)); [reflexivity|].
    destruct (s >? e); reflexivity.
  - subst r. unfold insert_into_file.
    destruct (n =? 0); [reflexivity|].
    destruct (verifyLineContent f n expected); reflexivity.
  - subst r. unfold replace_lines_in_file.
    destruct (verifyLineContent f s expected); [|reflexivity]. cbv zeta.
    destruct ((s >? _) || (e >? _)); [reflexivity|].
    destruct (s >? e); reflexivity.
  - subst r. unfold multireplace_lines_in_file.
    destruct (check_overlaps (-1) _); [reflexivity|].
    destruct (process_edits _ _ _ _). reflexivity.
Qed.

Lemma matchesPattern_plain_witness :
  Glob.matchesPattern (str "README_old") (Some (str "R?ADME*"))
  = Some (Glob.glob_contract (str "R?ADME*") (str "README_old")).
Proof.
  apply matchesPattern_plain; [discriminate | | repeat constructor].
  repeat (apply Forall_cons;
          [first [ left; reflexivity
                 | right; left; reflexivity
                 | right; right; reflexivity ]|]).
  apply Forall_nil.
Defined.

(** ** Round trips *)

Lemma firstn_range_skipn {A} (l : list A) (a b : nat) :
  (a <= b)%nat ->
  firstn a l ++ firstn (b - a) (skipn a l) ++ skipn b l = l.
Proof.
  intros Hab.
  replace (skipn b l) with (skipn (b - a) (skipn a l))
    by (rewrite skipn_skipn; f_equal; lia).
  rewrite firstn_skipn. apply firstn_skipn.
Qed.

(** X24. Writing back what was read: replacing lines [s..e] by the text
    [read_file] returned for these lines leaves the text of the file as
    it was. *)
Theorem replace_lines_with_what_was_read
    (f : File) (s e : Z) (full : option bool) (line expected : jsstring) :
  let lines := split_lines (content f) in
  truthy full = false ->
  1 <= s <= e -> e <= Z.of_nat (length lines) ->
  index lines (s - 1) = Some line ->
  normalizeContent line = normalizeContent expected ->
  exists text f',
    read_file f false (Some s) (Some e) full = inr text
    /\ replace_lines_in_file f s e expected text = (f', RangeDone s e)
    /\ content f' = content f.
Proof.
  intros lines Hfull Hse He Hi Hn.
  destruct (read_file_range_selected f false s e full Hfull Hse He)
    as (Hread & Hne & _ & _).
  destruct (range_checks_pass f s e expected line Hi Hn)
    as ([actual Hv] & Hb & Hinv & Hpre & Hsuf); [fold lines; lia|].
  do 2 eexists. split; [exact Hread|].
  unfold replace_lines_in_file, readFileSync. rewrite Hv. cbv zeta.
  rewrite Hb, Hinv, Hpre, Hsuf. split; [reflexivity|].
  cbn [content writeFileSync]. fold lines.
  set (selected := firstn (Z.to_nat (e - s + 1))
                     (skipn (Z.to_nat (s - 1)) lines)) in *.
  rewrite (join_lines_middle _ [join_lines selected] selected)
    by (auto; discriminate).
  unfold selected.
  replace (Z.to_nat (e - s + 1)) with (Z.to_nat e - Z.to_nat (s - 1))%nat
    by lia.
  rewrite firstn_range_skipn by lia.
  apply join_split_lines.
Qed.

Lemma replace_lines_with_what_was_read_witness :
  exists text f',
    read_file five_line_file false (Some 2) (Some 4) None = inr text
    /\ replace_lines_in_file five_line_file 2 4 (str "Line 2: Second line")
         text
       = (f', RangeDone 2 4)
    /\ content f' = content five_line_file.
Proof.
  apply (replace_lines_with_what_was_read five_line_file 2 4 None
           (str "Line 2: Second line") (str "Line 2: Second line"));
    (reflexivity || (simpl; lia)).
Defined.



(** ** A batch and the single-range tool *)

Lemma replace_lines_lines (f : File) (edit : Edit) :
  passes_original_checks (split_lines (content f)) edit ->
  split_lines
    (content
       (fst (replace_lines_in_file f (line_start edit) (line_end edit)
               (line_start_contents edit) (contents edit))))
  = firstn (Z.to_nat (line_start edit - 1)) (split_lines (content f))
    ++ split_lines (contents edit)
    ++ skipn (Z.to_nat (line_end edit)) (split_lines (content f)).
Proof.
  intros (Hs & He & Hse & Hi).
  destruct (range_checks_pass f (line_start edit) (line_end edit)
              (line_start_contents edit) (line_start_contents edit)
              Hi eq_refl)
    as ([actual Hv] & Hb & Hinv & Hpre & Hsuf); [lia|].
  unfold replace_lines_in_file, readFileSync. rewrite Hv. cbv zeta.
  rewrite Hb, Hinv, Hpre, Hsuf. cbn [fst content writeFileSync].
  rewrite split_join_flat_map
    by (destruct (firstn _ (split_lines (content f))); discriminate).
  rewrite !flat_map_app. cbn [flat_map]. rewrite app_nil_r.
  rewrite !flat_map_split_single; [reflexivity| |].
  - apply Forall_skipn, file_lines_single.
  - apply Forall_firstn, file_lines_single.
Qed.

(** In an array that passes the overlap check and whose ranges are not
    inverted, every edit before the last ends before the last starts. *)
Lemma check_overlaps_last (originalLines : list jsstring)
    (edits : list Edit) (last : Edit) :
  forall previousEnd,
    Forall (passes_original_checks originalLines) edits ->
    check_overlaps previousEnd (edits ++ [last]) = None ->
    check_overlaps previousEnd edits = None
    /\ previousEnd < line_start last
    /\ Forall (fun e => line_end e < line_start last) edits.
Proof.
  induction edits as [|e rest IH]; intros p Hall Hchk; simpl in *.
  - destruct (line_start last <=? p) eqn:H; [discriminate|].
    apply Z.leb_gt in H. auto.
  - destruct (line_start e <=? p) eqn:H; [discriminate|].
    apply Z.leb_gt in H.
    inversion Hall as [|? ? (_ & _ & Hse & _) Hrest]; subst.
    destruct (IH _ Hrest Hchk) as (H1 & H2 & H3).
    split; [exact H1|]. split; [lia|]. now constructor.
Qed.

Lemma firstn_skipn_prefix {A} (X Y : list A) (a b : nat) :
  (a = 0 \/ a + b <= length X)%nat ->
  firstn a (skipn b (X ++ Y)) = firstn a (skipn b X).
Proof.
  intros [->|H]; [reflexivity|].
  rewrite skipn_app, firstn_app, length_skipn.
  replace (a - (length X - b))%nat with 0%nat by lia.
  simpl. apply app_nil_r.
Qed.

Lemma firstn_skipn_firstn {A} (l : list A) (a b n : nat) :
  (a = 0 \/ a + b <= n)%nat ->
  firstn a (skipn b (firstn n l)) = firstn a (skipn b l).
Proof.
  intros [->|H]; [reflexivity|].
  rewrite skipn_firstn_comm, firstn_firstn. f_equal. lia.
Qed.

(** Replacing a range that lies after every edit of an array, and then
    building the lines for the array, gives the lines for the array
    followed by that edit. *)
Lemma replaced_lines_snoc (originalLines : list jsstring) (last : Edit)
    (edits : list Edit) :
  let after_last :=
    firstn (Z.to_nat (line_start last - 1)) originalLines
    ++ split_lines (contents last)
    ++ skipn (Z.to_nat (line_end last)) originalLines in
  forall done : Z,
    0 <= done < line_start last ->
    line_start last <= Z.of_nat (length originalLines) ->
    Forall (fun e => 0 <= line_start e - 1
                     /\ line_start e <= line_end e < line_start last) edits ->
    replaced_lines after_last done edits
    = replaced_lines originalLines done (edits ++ [last]).
Proof.
  intros after_last.
  induction edits as [|e rest IH]; intros p Hp Hlast Hall.
  - cbn [app replaced_lines]. unfold after_last.
    rewrite skipn_app, length_firstn.
    replace (Z.to_nat p - Init.Nat.min (Z.to_nat (line_start last - 1))
                            (length originalLines))%nat
      with 0%nat by lia.
    cbn [skipn]. f_equal.
    rewrite skipn_firstn_comm. f_equal. lia.
  - inversion Hall as [|? ? (H0 & Hse & Hlt) Hrest]; subst.
    cbn [app replaced_lines]. rewrite IH by (auto; lia).
    f_equal. unfold after_last.
    rewrite firstn_skipn_prefix.
    + apply firstn_skipn_firstn.
      destruct (Z.le_gt_cases (line_start e - 1 - p) 0);
        [left | right]; lia.
    + rewrite length_firstn.
      destruct (Z.le_gt_cases (line_start e - 1 - p) 0);
        [left | right]; lia.
Qed.

Lemma passes_after_last (originalLines : list jsstring) (last e : Edit) :
  passes_original_checks originalLines e ->
  line_end e < line_start last ->
  line_start last <= Z.of_nat (length originalLines) ->
  passes_original_checks
    (firstn (Z.to_nat (line_start last - 1)) originalLines
     ++ split_lines (contents last)
     ++ skipn (Z.to_nat (line_end last)) originalLines) e.
Proof.
  intros (Hs & He & Hse & Hi) Hlt Hlast.
  pose proof (index_Some_range _ _ _ Hi) as Hr.
  assert (Z.of_nat (length (firstn (Z.to_nat (line_start last - 1))
                              originalLines)) = line_start last - 1) as Hlen
      by (rewrite length_firstn; lia).
  unfold passes_original_checks. rewrite !length_app.
  repeat split; try lia.
  rewrite index_app_l by lia. now rewrite index_firstn by lia.
Qed.

Lemma replace_each_lines (edits : list Edit) :
  forall f : File,
    Forall (passes_original_checks (split_lines (content f))) edits ->
    check_overlaps 0 edits = None ->
    split_lines (content (replace_each f (rev edits)))
    = replaced_lines (split_lines (content f)) 0 edits.
Proof.
  induction edits as [|last edits IH] using rev_ind; intros f Hall Hchk.
  - reflexivity.
  - apply Forall_app in Hall. destruct Hall as [Hall Hlast].
    inversion Hlast as [|? ? Hpl _]; subst.
    destruct (check_overlaps_last _ _ _ _ Hall Hchk) as (Hchk' & Hpos & Hends).
    pose proof Hpl as (Hls & _).
    rewrite rev_app_distr. cbn [rev app replace_each].
    rewrite IH.
    + rewrite replace_lines_lines by exact Hpl.
      apply replaced_lines_snoc; [lia | exact Hls |].
      rewrite Forall_forall in *. intros e He.
      destruct (Hall e He) as (_ & _ & Hse & Hi).
      apply index_Some_range in Hi. specialize (Hends e He). lia.
    + rewrite replace_lines_lines by exact Hpl.
      rewrite Forall_forall in *. intros e He.
      apply passes_after_last; auto.
    + exact Hchk'.
Qed.

(** X26. A batch in which every edit succeeds leaves the file with the
    text that [replace_lines_in_file] leaves when it is called for each
    edit in turn, from the edit nearest the end of the file to the one
    nearest its start. *)
Theorem batch_is_replace_lines_bottom_up
    (f f' : File) (edits : list Edit) (report : Report) :
  multireplace_lines_in_file f edits = (f', Ok report) ->
  failed report = 0%nat ->
  content f'
  = content (replace_each f (rev (sort compare_edits edits))).
Proof.
  intros Hcall Hfailed.
  destruct (multireplace_completed _ _ _ _ Hcall)
    as (Hchk & -> & _ & _ & _ & Hfail).
  rewrite Hfail in Hfailed. apply length_zero_iff_nil in Hfailed.
  pose proof (check_overlaps_from_zero _ _ _ _ Hfailed Hchk) as Hchk0.
  set (originalLines := split_lines (content f)) in *.
  assert (applied_through originalLines
            {| workingLines := originalLines; lineShifts := [] |} 0 0 [])
    as Hinv by (constructor; simpl; auto; lia).
  destruct (process_edits_all_applied _ _ _ _ _ _ 0 Hinv Hchk0 Hfailed)
    as (Hfinal & Hall & _).
  cbn [content writeFileSync]. rewrite Hfinal. cbn [app].
  subst originalLines.
  rewrite <- (replace_each_lines _ f Hall Hchk0).
  now rewrite join_split_lines.
Qed.

Lemma batch_is_replace_lines_bottom_up_witness :
  let shrink := {| line_start := 2; line_end := 3;
                   line_start_contents := str "2"; contents := str "X" |} in
  let grow := {| line_start := 5; line_end := 6;
                 line_start_contents := str "5";
                 contents := str "P" ++ LF :: str "Q" ++ LF :: str "R" |} in
  content (fst (multireplace_lines_in_file seven_line_file [shrink; grow]))
  = content (replace_each seven_line_file [grow; shrink]).
Proof.
  intros shrink grow.
  apply (batch_is_replace_lines_bottom_up seven_line_file _ [shrink; grow]
           _ eq_refl eq_refl).
Defined.
